(** * DERSTY e-mail gateway: a shallow embedding of [server.js]

    The gateway exposes three routes, [/test], [/sync] and [/send].  Each
    handler drives external collaborators (the IMAP session of imapflow,
    the MIME parser of mailparser, the SMTP transport of nodemailer and the
    SHA-256 digest of Node's crypto module).  The collaborators are not part
    of the repository: they appear here as the fields of an environment
    record, and every call a handler makes to one of them is logged as an
    [Event], so that a handler denotes a pair of the events it performed and
    the HTTP response it produced.

    JavaScript strings are modelled by [string]; a character stands for one
    code unit below 256.  JavaScript numbers that hold UIDs, ports, limits
    and timestamps are modelled by [Z]. *)

From Stdlib Require Import ZArith List String Ascii Bool Lia.
From Stdlib Require Import Sorting.Sorted Sorting.Permutation.
Import ListNotations.

Local Open Scope string_scope.
Local Open Scope list_scope.
Local Open Scope Z_scope.

(** ** JavaScript values and operators used by the handlers *)

(** A thrown exception carries the text [String(e?.message || e)]. *)
Inductive result (A : Type) : Type :=
| Ok (a : A)
| Throw (e : string).
Arguments Ok {A} a.
Arguments Throw {A} e.

(** [!x] for a field that is either absent ([undefined]/[null]) or a string:
    the empty string is falsy too. *)
Definition falsy (x : option string) : bool :=
  match x with
  | None => true
  | Some s => (String.length s =? 0)%nat
  end.

(** [x || d] where [d] is a string. *)
Definition or_else (x : option string) (d : string) : string :=
  if falsy x then d else match x with Some s => s | None => d end.

(** [a || d] for two strings. *)
Definition or_str (a d : string) : string :=
  if (String.length a =? 0)%nat then d else a.

(** [x ?? d]. *)
Definition nullish {A : Type} (x : option A) (d : A) : A :=
  match x with
  | Some v => v
  | None => d
  end.

(** [Array.prototype.slice(0, n)]: a negative [n] counts from the end. *)
Definition js_slice0 {A : Type} (l : list A) (n : Z) : list A :=
  if n <? 0
  then firstn (Z.to_nat (Z.max 0 (Z.of_nat (List.length l) + n))) l
  else firstn (Z.to_nat n) l.

(** [String.prototype.slice(0, n)] for a non-negative literal [n]. *)
Fixpoint str_take (n : nat) (s : string) : string :=
  match n, s with
  | O, _ => EmptyString
  | _, EmptyString => EmptyString
  | S n', String c s' => String c (str_take n' s')
  end.

(** [Array.prototype.sort(cmp)] on numbers; the sort is stable, and [x] goes
    before [y] when [cmp x y <= 0]. *)
Fixpoint js_insert (cmp : Z -> Z -> Z) (x : Z) (l : list Z) : list Z :=
  match l with
  | [] => [x]
  | y :: l' => if cmp x y <=? 0 then x :: l else y :: js_insert cmp x l'
  end.

Fixpoint js_sort (cmp : Z -> Z -> Z) (l : list Z) : list Z :=
  match l with
  | [] => []
  | x :: l' => js_insert cmp x (js_sort cmp l')
  end.

(** The two comparators of the sync route. *)
Definition cmp_desc (a b : Z) : Z := b - a.
Definition cmp_asc (a b : Z) : Z := a - b.

(** The class [\s] of regular expressions, which is also the set of
    characters [trim] strips, restricted to code units below 256:
    TAB, LF, VT, FF, CR, SPACE and NBSP. *)
Definition is_ws (c : ascii) : bool :=
  let n := nat_of_ascii c in
  ((9 <=? n) && (n <=? 13) || (n =? 32) || (n =? 160))%nat.

(** [s.replace(/\s+/g, " ")]: every maximal run of whitespace becomes one
    space.  [in_run] tells that the previous character was whitespace. *)
Fixpoint collapse_from (in_run : bool) (s : string) : string :=
  match s with
  | EmptyString => EmptyString
  | String c s' =>
      if is_ws c
      then if in_run then collapse_from true s'
           else String " " (collapse_from true s')
      else String c (collapse_from false s')
  end.

Definition collapse_ws (s : string) : string := collapse_from false s.

Fixpoint trim_start (s : string) : string :=
  match s with
  | EmptyString => EmptyString
  | String c s' => if is_ws c then trim_start s' else s
  end.

Fixpoint trim_end (s : string) : string :=
  match s with
  | EmptyString => EmptyString
  | String c s' =>
      match trim_end s' with
      | EmptyString => if is_ws c then EmptyString else String c EmptyString
      | r => String c r
      end
  end.

(** [String.prototype.trim]. *)
Definition trim (s : string) : string := trim_end (trim_start s).

(** [Array.prototype.join(" ")]. *)
Definition join_sp (l : list string) : string := String.concat " " l.

(** ** Host Config Resolver: [cfg] *)

(** The [advanced] object of a request body; a field is [None] when it is
    [undefined] or [null]. *)
Record Overrides : Type := mkOverrides {
  o_imapPort : option Z;
  o_imapSecure : option bool;
  o_smtpHost : option string;
  o_smtpPort : option Z;
  o_smtpSecure : option bool
}.

(** [{}]. *)
Definition no_overrides : Overrides := mkOverrides None None None None None.

(** [{ ...o, smtpHost: h }]: the spread copies [o], then the key written
    after it replaces whatever [o] held there. *)
Definition with_smtpHost (o : Overrides) (h : option string) : Overrides :=
  mkOverrides (o_imapPort o) (o_imapSecure o) h (o_smtpPort o) (o_smtpSecure o).

Record Config : Type := mkConfig {
  imapHost : string;
  imapPort : Z;
  imapSecure : bool;
  smtpHost : string;
  smtpPort : Z;
  smtpSecure : bool
}.

Definition cfg (overrides : Overrides) : Config :=
  {| imapHost := "mail.privateemail.com";
     imapPort := nullish (o_imapPort overrides) 993;
     imapSecure := nullish (o_imapSecure overrides) true;
     smtpHost := nullish (o_smtpHost overrides) "mail.privateemail.com";
     smtpPort := nullish (o_smtpPort overrides) 465;
     smtpSecure := nullish (o_smtpSecure overrides) true |}.

(** [advanced || {}]. *)
Definition adv_or_empty (advanced : option Overrides) : Overrides :=
  match advanced with
  | Some o => o
  | None => no_overrides
  end.

(** ** Collaborators *)

(** Options handed to [new ImapFlow] and to [nodemailer.createTransport]. *)
Record SessionOptions : Type := mkSession {
  s_host : string;
  s_port : Z;
  s_secure : bool;
  s_user : string;
  s_pass : string
}.

(** The two search queries the gateway issues: [{ uid: `${lo}:*` }] and
    [{ since }], the latter with the instant in milliseconds. *)
Inductive Criteria : Type :=
| SearchUid (lo : Z)
| SearchSince (since : Z).

(** What [client.fetch] yields for one message, reduced to the fields the
    loop reads: [msg.uid], [msg.envelope?.subject],
    [msg.envelope?.from?.[0]?.address], [msg.flags] and [msg.source]. *)
Record FetchMsg : Type := mkFetchMsg {
  uid : Z;
  envelope_subject : option string;
  envelope_from : option string;
  flags : option (list string);
  source : string
}.

(** [parsed.references] is absent, one string, or an array of strings. *)
Inductive RawReferences : Type :=
| RefAbsent
| RefOne (r : string)
| RefMany (rs : list string).

(** The result of [simpleParser], reduced to the fields the loop reads;
    [p_from] is [parsed.from?.value?.[0]?.address] and [p_html] is [None]
    when mailparser reports [false]. *)
Record Parsed : Type := mkParsed {
  p_subject : option string;
  p_from : option string;
  p_text : option string;
  p_html : option string;
  p_date : option Z;
  p_messageId : option string;
  p_inReplyTo : option string;
  p_references : RawReferences
}.

(** The argument of [transport.sendMail]. *)
Record Mail : Type := mkMail {
  mail_from : string;
  mail_to : string;
  mail_cc : option string;
  mail_subject : string;
  mail_text : option string;
  mail_html : option string;
  mail_headers : list (string * string)
}.

(** The behaviour of the outside world during one request.  [imap_fetch]
    is an asynchronous generator: it yields a list of messages and then
    either ends ([None]) or throws ([Some e]). *)
Record Env : Type := mkEnv {
  date_now : Z;
  imap_connect : SessionOptions -> result unit;
  imap_getMailboxLock : result unit;
  imap_search : Criteria -> result (list Z);
  imap_fetch : list Z -> list FetchMsg * option string;
  simpleParser : string -> result Parsed;
  smtp_verify : SessionOptions -> result unit;
  smtp_sendMail : SessionOptions -> Mail -> result string;
  sha256_hex : string -> string
}.

(** Every call to a collaborator leaves one event. *)
Inductive Event : Type :=
| EImapConnect (o : SessionOptions)
| EImapLock
| EImapRelease
| EImapSearch (c : Criteria)
| EImapFetch (ids : list Z)
| EParse (src : string)
| EImapLogout
| ESmtpVerify (o : SessionOptions)
| ESmtpSend (o : SessionOptions) (m : Mail).

(** ** The monad of the handlers: a log of events and a result or an
    exception *)

Definition M (A : Type) : Type := (list Event * result A)%type.

Definition ret {A : Type} (a : A) : M A := ([], Ok a).

Definition bind {A B : Type} (m : M A) (f : A -> M B) : M B :=
  match m with
  | (tr, Ok a) => let (tr', r) := f a in (tr ++ tr', r)
  | (tr, Throw e) => (tr, Throw e)
  end.

(** A call to a collaborator: the event, then its outcome. *)
Definition call {A : Type} (ev : Event) (r : result A) : M A := ([ev], r).

(** [try { m } catch (e) { h e }]. *)
Definition try_catch {A : Type} (m : M A) (h : string -> M A) : M A :=
  match m with
  | (tr, Ok a) => (tr, Ok a)
  | (tr, Throw e) => let (tr', r) := h e in (tr ++ tr', r)
  end.

(** [try { m } finally { fin }] for a [fin] that does not throw. *)
Definition finally {A : Type} (m : M A) (fin : list Event) : M A :=
  (fst m ++ fin, snd m).

Declare Scope gateway_scope.
Delimit Scope gateway_scope with gw.
Notation "x <- m ;; k" := (bind m (fun x => k))
  (at level 61, m at next level, right associativity) : gateway_scope.
Notation "m ;;; k" := (bind m (fun _ => k))
  (at level 61, right associativity) : gateway_scope.
Local Open Scope gateway_scope.

(** ** HTTP responses *)

(** [{ ok, error? }] of the inbound check and [{ ok, error?, smtpHost }] of
    the outbound check. *)
Record ImapCheck : Type := mkImapCheck {
  ic_ok : bool;
  ic_error : option string
}.

Record SmtpCheck : Type := mkSmtpCheck {
  sc_ok : bool;
  sc_error : option string;
  sc_smtpHost : string
}.

Record NormalizedMessage : Type := mkNormalized {
  externalThreadKey : string;
  messageId : string;
  inReplyTo : string;
  references : list string;
  subject : string;
  fromEmail : string;
  date : Z;
  nm_flags : list string;
  snippet : string;
  bodyText : string;
  bodyHtml : string
}.

Inductive Body : Type :=
| BError (error : string)
| BTest (ok : bool) (imap : ImapCheck) (smtp : SmtpCheck)
| BSync (cursor : Z) (messages : list NormalizedMessage)
| BSend (sent_messageId : string) (usedHost : string).

Record Response : Type := mkResponse {
  status : Z;
  body : Body
}.

(** [res.json(b)] and [res.status(n).json(b)]. *)
Definition json (b : Body) : Response := mkResponse 200 b.
Definition status_json (n : Z) (b : Body) : Response := mkResponse n b.

(** ** API-key middleware *)

(** [safeEqual]: both sides go through [String(x || "")] and are compared
    byte for byte. *)
Definition safeEqual (a b : option string) : bool :=
  String.eqb (or_else a "") (or_else b "").

Definition requireApiKey (API_KEY : string) (key : option string)
    (next : M Response) : M Response :=
  if negb (safeEqual key (Some API_KEY))
  then ret (status_json 401 (BError "Unauthorized"))
  else next.

(** ** Credential Verifier: [/test] *)

Record TestBody : Type := mkTestBody {
  tb_email : option string;
  tb_password : option string;
  tb_advanced : option Overrides
}.

Definition testImap (env : Env) (email password : string)
    (advanced : option Overrides) : M ImapCheck :=
  let c := cfg (adv_or_empty advanced) in
  let client := mkSession (imapHost c) (imapPort c) (imapSecure c) email password in
  finally
    (try_catch
       (call (EImapConnect client) (imap_connect env client) ;;;
        call EImapLock (imap_getMailboxLock env) ;;;
        call EImapRelease (Ok tt) ;;;
        ret (mkImapCheck true None))
       (fun e => ret (mkImapCheck false (Some e))))
    [EImapLogout].

Definition testSmtp (env : Env) (email password : string)
    (advanced : option Overrides) (smtpHostOverride : option string)
    : M SmtpCheck :=
  let c := cfg (with_smtpHost (adv_or_empty advanced) smtpHostOverride) in
  let transport := mkSession (smtpHost c) (smtpPort c) (smtpSecure c) email password in
  try_catch
    (call (ESmtpVerify transport) (smtp_verify env transport) ;;;
     ret (mkSmtpCheck true None (smtpHost c)))
    (fun e => ret (mkSmtpCheck false (Some e) (smtpHost c))).

Definition test_handler (env : Env) (b : TestBody) : M Response :=
  if falsy (tb_email b) || falsy (tb_password b)
  then ret (status_json 400 (BError "Missing email/password"))
  else
    let email := or_else (tb_email b) "" in
    let password := or_else (tb_password b) "" in
    let advanced := tb_advanced b in
    imap <- testImap env email password advanced ;;
    smtp <- testSmtp env email password advanced None ;;
    smtp <- (if negb (sc_ok smtp)
             then fallback <- testSmtp env email password advanced
                                (Some "smtp.privateemail.com") ;;
                  ret (if sc_ok fallback then fallback else smtp)
             else ret smtp) ;;
    ret (json (BTest (ic_ok imap && sc_ok smtp) imap smtp)).

Definition route_test (API_KEY : string) (env : Env) (key : option string)
    (b : TestBody) : M Response :=
  requireApiKey API_KEY key (test_handler env b).

(** ** Mailbox Synchronizer: [/sync] *)

Record SyncBody : Type := mkSyncBody {
  yb_email : option string;
  yb_password : option string;
  yb_cursor : option Z;
  yb_backfillDays : option Z;
  yb_limit : option Z;
  yb_advanced : option Overrides
}.

(** The truthiness test [if (cursor)] and [cursor ? ... : ...]: an absent
    cursor and the number [0] are both falsy. *)
Definition cursor_truthy (cursor : option Z) : bool :=
  match cursor with
  | Some c => negb (c =? 0)
  | None => false
  end.

(** [Number(cursor)] where the cursor is truthy. *)
Definition cursor_number (cursor : option Z) : Z := nullish cursor 0.

(** [Array.isArray(r) ? r : (r ? [r] : [])]. *)
Definition references_of (r : RawReferences) : list string :=
  match r with
  | RefMany rs => rs
  | RefOne s => if (String.length s =? 0)%nat then [] else [s]
  | RefAbsent => []
  end.

(** [String.prototype.slice(0, n)] with the bound as a number. *)
Definition str_slice0 (s : string) (n : Z) : string :=
  str_take (Z.to_nat n) s.

(** The string that is hashed into the thread key. *)
Definition threadKeyInput (references : list string)
    (inReplyTo messageId subject fromEmail : string) : string :=
  or_str (join_sp references) (or_str inReplyTo (or_str messageId subject))
  ++ "|" ++ fromEmail.

Definition threadKey (sha256 : string -> string) (references : list string)
    (inReplyTo messageId subject fromEmail : string) : string :=
  sha256 (threadKeyInput references inReplyTo messageId subject fromEmail).

(** The body of the fetch loop after [simpleParser] has returned. *)
Definition normalize (env : Env) (msg : FetchMsg) (parsed : Parsed)
    : NormalizedMessage :=
  let subject :=
    or_else (p_subject parsed) (or_else (envelope_subject msg) "(no subject)") in
  let fromEmail := or_else (p_from parsed) (or_else (envelope_from msg) "") in
  let snippet :=
    str_slice0 (trim (collapse_ws (or_else (p_text parsed) (or_str subject ""))))
               240 in
  let bodyText := str_slice0 (or_else (p_text parsed) "") 20000 in
  let bodyHtml := str_slice0 (or_else (p_html parsed) "") 20000 in
  let messageId := or_else (p_messageId parsed) "" in
  let inReplyTo := or_else (p_inReplyTo parsed) "" in
  let references := references_of (p_references parsed) in
  let externalThreadKey :=
    threadKey (sha256_hex env) references inReplyTo messageId subject fromEmail in
  {| externalThreadKey := externalThreadKey;
     messageId := messageId;
     inReplyTo := inReplyTo;
     references := references;
     subject := subject;
     fromEmail := fromEmail;
     date := nullish (p_date parsed) (date_now env);
     nm_flags := nullish (flags msg) [];
     snippet := snippet;
     bodyText := bodyText;
     bodyHtml := bodyHtml |}.

(** [for await (const msg of client.fetch(...))] over the messages the
    generator yields, with the running maximum and the array being filled. *)
Fixpoint fetch_loop (env : Env) (yielded : list FetchMsg) (maxUid : Z)
    (messages : list NormalizedMessage) : M (Z * list NormalizedMessage) :=
  match yielded with
  | [] => ret (maxUid, messages)
  | msg :: rest =>
      let maxUid := Z.max maxUid (uid msg) in
      parsed <- call (EParse (source msg)) (simpleParser env (source msg)) ;;
      fetch_loop env rest maxUid (messages ++ [normalize env msg parsed])
  end.

(** The search criterion of a request. *)
Definition sync_criteria (env : Env) (cursor backfillDays : option Z)
    : Criteria :=
  if cursor_truthy cursor
  then SearchUid (cursor_number cursor + 1)
  else SearchSince (date_now env - nullish backfillDays 14 * 24 * 60 * 60 * 1000).

(** Lines 124 to 126: newest first, cut, oldest first. *)
Definition bound_batch (uids : list Z) (limit : Z) : list Z :=
  js_sort cmp_asc (js_slice0 (js_sort cmp_desc uids) limit).

(** The block that runs under the mailbox lock. *)
Definition sync_locked (env : Env) (cursor backfillDays limit : option Z)
    : M Response :=
  let crit := sync_criteria env cursor backfillDays in
  uids <- call (EImapSearch crit) (imap_search env crit) ;;
  let uids := bound_batch uids (nullish limit 50) in
  let maxUid := if cursor_truthy cursor then cursor_number cursor else 0 in
  call (EImapFetch uids) (Ok tt) ;;;
  r <- fetch_loop env (fst (imap_fetch env uids)) maxUid [] ;;
  match snd (imap_fetch env uids) with
  | Some e => ([], Throw e)
  | None => ret (json (BSync (fst r) (snd r)))
  end.

Definition sync_handler (env : Env) (b : SyncBody) : M Response :=
  if falsy (yb_email b) || falsy (yb_password b)
  then ret (status_json 400 (BError "Missing email/password"))
  else
    let email := or_else (yb_email b) "" in
    let password := or_else (yb_password b) "" in
    let c := cfg (adv_or_empty (yb_advanced b)) in
    let client := mkSession (imapHost c) (imapPort c) (imapSecure c) email password in
    finally
      (try_catch
         (call (EImapConnect client) (imap_connect env client) ;;;
          call EImapLock (imap_getMailboxLock env) ;;;
          finally
            (sync_locked env (yb_cursor b) (yb_backfillDays b) (yb_limit b))
            [EImapRelease])
         (fun e => ret (status_json 500 (BError e))))
      [EImapLogout].

Definition route_sync (API_KEY : string) (env : Env) (key : option string)
    (b : SyncBody) : M Response :=
  requireApiKey API_KEY key (sync_handler env b).

(** ** Outbound Sender: [/send] *)

Record SendBody : Type := mkSendBody {
  sb_fromEmail : option string;
  sb_password : option string;
  sb_to : option string;
  sb_cc : option string;
  sb_subject : option string;
  sb_bodyText : option string;
  sb_bodyHtml : option string;
  sb_headers : option (list (string * string));
  sb_advanced : option Overrides
}.

(** The object literal passed to [sendMail]. *)
Definition mail_of (b : SendBody) : Mail :=
  {| mail_from := or_else (sb_fromEmail b) "";
     mail_to := or_else (sb_to b) "";
     mail_cc := sb_cc b;
     mail_subject := or_else (sb_subject b) "";
     mail_text := sb_bodyText b;
     mail_html := sb_bodyHtml b;
     mail_headers := nullish (sb_headers b) [] |}.

Definition trySend (env : Env) (b : SendBody) (host : string) : M Response :=
  let c := cfg (with_smtpHost (adv_or_empty (sb_advanced b)) (Some host)) in
  let transport :=
    mkSession (smtpHost c) (smtpPort c) (smtpSecure c)
              (or_else (sb_fromEmail b) "") (or_else (sb_password b) "") in
  info <- call (ESmtpSend transport (mail_of b))
               (smtp_sendMail env transport (mail_of b)) ;;
  ret (json (BSend info (smtpHost c))).

Definition send_handler (env : Env) (b : SendBody) : M Response :=
  if falsy (sb_fromEmail b) || falsy (sb_password b) || falsy (sb_to b)
     || falsy (sb_subject b)
     || (falsy (sb_bodyText b) && falsy (sb_bodyHtml b))
  then ret (status_json 400 (BError "Missing required fields"))
  else
    try_catch
      (try_catch (trySend env b "mail.privateemail.com")
                 (fun _ => trySend env b "smtp.privateemail.com"))
      (fun e => ret (status_json 500 (BError e))).

Definition route_send (API_KEY : string) (env : Env) (key : option string)
    (b : SendBody) : M Response :=
  requireApiKey API_KEY key (send_handler env b).

(** ** Properties the claims are stated with *)

(** No two adjacent whitespace characters. *)
Fixpoint no_ws_run (s : string) : bool :=
  match s with
  | EmptyString => true
  | String c s' =>
      match s' with
      | EmptyString => true
      | String d _ => negb (is_ws c && is_ws d) && no_ws_run s'
      end
  end.

(** The SMTP hosts a run contacted, in order. *)
Fixpoint smtp_hosts (tr : list Event) : list string :=
  match tr with
  | [] => []
  | ESmtpVerify o :: tr' => s_host o :: smtp_hosts tr'
  | ESmtpSend o _ :: tr' => s_host o :: smtp_hosts tr'
  | _ :: tr' => smtp_hosts tr'
  end.

(** The candidates a search returned, and the messages the generator then
    yielded for the retained identifiers. *)
Definition sync_candidates (env : Env) (b : SyncBody) : list Z :=
  match imap_search env (sync_criteria env (yb_cursor b) (yb_backfillDays b)) with
  | Ok found => found
  | Throw _ => []
  end.

Definition sync_batch (env : Env) (b : SyncBody) : list FetchMsg :=
  fst (imap_fetch env (bound_batch (sync_candidates env b) (nullish (yb_limit b) 50))).

(** The session a handler opens towards the SMTP host [host]. *)
Definition smtp_session (advanced : option Overrides) (user pass host : string)
    : SessionOptions :=
  mkSession host
            (nullish (o_smtpPort (adv_or_empty advanced)) 465)
            (nullish (o_smtpSecure (adv_or_empty advanced)) true)
            user pass.

(** The value the running maximum starts from. *)
Definition sync_start (b : SyncBody) : Z :=
  if cursor_truthy (yb_cursor b) then cursor_number (yb_cursor b) else 0.

(** One element of [messages] is the normalisation of one fetched message
    whose source the parser accepted. *)
Definition normalizes (env : Env) (msg : FetchMsg) (nm : NormalizedMessage)
    : Prop :=
  exists parsed,
    simpleParser env (source msg) = Ok parsed /\ nm = normalize env msg parsed.

(** The string begins with a whitespace character. *)
Definition starts_ws (s : string) : bool :=
  match s with
  | EmptyString => false
  | String c _ => is_ws c
  end.

(** The bounds of the normalisation step. *)
Definition bounded_message (m : NormalizedMessage) : Prop :=
  Z.of_nat (String.length (snippet m)) <= 240 /\
  no_ws_run (snippet m) = true /\
  Z.of_nat (String.length (bodyText m)) <= 20000 /\
  Z.of_nat (String.length (bodyHtml m)) <= 20000.

(** The searches a run issued, in order. *)
Fixpoint searches (tr : list Event) : list Criteria :=
  match tr with
  | [] => []
  | EImapSearch c :: tr' => c :: searches tr'
  | _ :: tr' => searches tr'
  end.



(** The messages of a sync answer. *)
Definition response_messages (r : M Response) : list NormalizedMessage :=
  match snd r with
  | Ok (mkResponse _ (BSync _ ms)) => ms
  | _ => []
  end.

(** *** Contracts of the IMAP collaborator

    What the theorems on order and on the cursor assume of the session.
    The gateway calls [client.search] and [client.fetch] without the option
    that makes them speak in UIDs, so the identifiers a search returns and
    a fetch takes are message sequence numbers, and only [msg.uid] is a
    UID.  [uid_of] gives the UID of the message an identifier denotes in
    the mailbox as the session sees it, and [top] is the highest UID the
    mailbox holds. *)

(** Fetching identifiers that a search of the session returned yields, when
    the generator ends normally, one message per identifier, in the order
    requested, each with the UID of the message the identifier denotes. *)
Definition fetch_in_order (env : Env) (uid_of : Z -> Z) : Prop :=
  forall c found ids,
    imap_search env c = Ok found ->
    incl ids found ->
    snd (imap_fetch env ids) = None ->
    map uid (fst (imap_fetch env ids)) = map uid_of ids.

(** UIDs grow with the identifiers (RFC 3501, 2.3.1.1). *)
Definition uid_ascending (env : Env) (uid_of : Z -> Z) : Prop :=
  forall c found a b,
    imap_search env c = Ok found ->
    In a found -> In b found ->
    a <= b -> uid_of a <= uid_of b.

(** UIDs are positive. *)
Definition uid_positive (env : Env) (uid_of : Z -> Z) : Prop :=
  forall c found id,
    imap_search env c = Ok found -> In id found -> 0 < uid_of id.

(** No UID is above [top], and a search for the UID range [lo:*] returns
    the messages from [lo] on or, when there is none (RFC 3501, 6.4.8: the
    range [lo:*] always holds the highest UID), the message with the
    highest UID. *)
Definition search_uid_range (env : Env) (uid_of : Z -> Z) (top : Z) : Prop :=
  (forall c found id,
     imap_search env c = Ok found -> In id found -> uid_of id <= top) /\
  (forall lo found id,
     imap_search env (SearchUid lo) = Ok found -> In id found ->
     lo <= uid_of id \/ (uid_of id = top /\ top < lo)).

(** The sixteen digits of a hexadecimal digest, and all the strings of [n]
    of them. *)
Definition hex_chars : list ascii :=
  [ "0"; "1"; "2"; "3"; "4"; "5"; "6"; "7";
    "8"; "9"; "a"; "b"; "c"; "d"; "e"; "f" ]%char.

Fixpoint hex_strings (n : nat) : list string :=
  match n with
  | O => [EmptyString]
  | S n' => flat_map (fun c => map (String c) (hex_strings n')) hex_chars
  end.

Fixpoint is_hex_string (s : string) : Prop :=
  match s with
  | EmptyString => True
  | String c s' => In c hex_chars /\ is_hex_string s'
  end.

(** The sender made of [n] letters a. *)
Fixpoint a_string (n : nat) : string :=
  match n with
  | O => EmptyString
  | S n' => String "a" (a_string n')
  end.

(** ** SHA-256 and the concrete collaborators used to run the handlers *)

(** Node's [crypto] module is a library the gateway calls;
    [createHash("sha256").update(s).digest("hex")] is written out here after
    FIPS 180-4, over 32-bit words held in [Z], to serve as the digest of the
    reference world below. *)
Module SHA256.

Definition w32 (x : Z) : Z := x mod 4294967296.

Definition add32 (x y : Z) : Z := w32 (x + y).

Definition rotr (n x : Z) : Z :=
  Z.lor (Z.shiftr x n) (w32 (Z.shiftl x (32 - n))).

Definition Ch (x y z : Z) : Z :=
  Z.lxor (Z.land x y) (Z.land (Z.lnot x) z).

Definition Maj (x y z : Z) : Z :=
  Z.lxor (Z.lxor (Z.land x y) (Z.land x z)) (Z.land y z).

Definition xor3 (a b c : Z) : Z := Z.lxor (Z.lxor a b) c.

Definition Sigma0 (x : Z) : Z := xor3 (rotr 2 x) (rotr 13 x) (rotr 22 x).
Definition Sigma1 (x : Z) : Z := xor3 (rotr 6 x) (rotr 11 x) (rotr 25 x).
Definition sigma0 (x : Z) : Z := xor3 (rotr 7 x) (rotr 18 x) (Z.shiftr x 3).
Definition sigma1 (x : Z) : Z := xor3 (rotr 17 x) (rotr 19 x) (Z.shiftr x 10).

Definition K : list Z :=
  [ 1116352408; 1899447441; 3049323471; 3921009573; 961987163; 1508970993;
    2453635748; 2870763221; 3624381080; 310598401; 607225278; 1426881987;
    1925078388; 2162078206; 2614888103; 3248222580; 3835390401; 4022224774;
    264347078; 604807628; 770255983; 1249150122; 1555081692; 1996064986;
    2554220882; 2821834349; 2952996808; 3210313671; 3336571891; 3584528711;
    113926993; 338241895; 666307205; 773529912; 1294757372; 1396182291;
    1695183700; 1986661051; 2177026350; 2456956037; 2730485921; 2820302411;
    3259730800; 3345764771; 3516065817; 3600352804; 4094571909; 275423344;
    430227734; 506948616; 659060556; 883997877; 958139571; 1322822218;
    1537002063; 1747873779; 1955562222; 2024104815; 2227730452; 2361852424;
    2428436474; 2756734187; 3204031479; 3329325298 ].

Definition H0 : list Z :=
  [ 1779033703; 3144134277; 1013904242; 2773480762;
    1359893119; 2600822924; 528734635; 1541459225 ].

(** UTF-8 bytes of a string of code units below 256. *)
Fixpoint utf8 (s : string) : list Z :=
  match s with
  | EmptyString => []
  | String c s' =>
      let n := Z.of_nat (nat_of_ascii c) in
      if n <? 128 then n :: utf8 s'
      else (192 + n / 64) :: (128 + n mod 64) :: utf8 s'
  end.

(** Big-endian bytes of [x], [n] of them. *)
Fixpoint be_bytes (n : nat) (x : Z) : list Z :=
  match n with
  | O => []
  | S n' => be_bytes n' (x / 256) ++ [x mod 256]
  end.

Definition pad (bytes : list Z) : list Z :=
  let len := Z.of_nat (List.length bytes) in
  bytes ++ [128] ++ repeat 0 (Z.to_nat ((55 - len) mod 64))
        ++ be_bytes 8 (8 * len).

(** Big-endian words of a byte list whose length is a multiple of 4. *)
Fixpoint words (n : nat) (bytes : list Z) : list Z :=
  match n, bytes with
  | S n', b0 :: b1 :: b2 :: b3 :: rest =>
      (((b0 * 256 + b1) * 256 + b2) * 256 + b3) :: words n' rest
  | _, _ => []
  end.

(** The message schedule: [win] holds the sixteen latest words, oldest
    first; each step emits the oldest and appends the next one. *)
Fixpoint schedule (n : nat) (win : list Z) : list Z :=
  match n, win with
  | S n', w0 :: rest =>
      let next :=
        add32 (add32 (sigma1 (nth 14 win 0)) (nth 9 win 0))
              (add32 (sigma0 (nth 1 win 0)) w0) in
      w0 :: schedule n' (rest ++ [next])
  | _, _ => []
  end.

Record Regs : Type := mkRegs {
  ra : Z; rb : Z; rc : Z; rd : Z; re : Z; rf : Z; rg : Z; rh : Z
}.

Definition round (r : Regs) (kw : Z * Z) : Regs :=
  let t1 :=
    add32 (add32 (add32 (rh r) (Sigma1 (re r))) (Ch (re r) (rf r) (rg r)))
          (add32 (fst kw) (snd kw)) in
  let t2 := add32 (Sigma0 (ra r)) (Maj (ra r) (rb r) (rc r)) in
  mkRegs (add32 t1 t2) (ra r) (rb r) (rc r) (add32 (rd r) t1)
         (re r) (rf r) (rg r).

Definition regs_of (h : list Z) : Regs :=
  mkRegs (nth 0 h 0) (nth 1 h 0) (nth 2 h 0) (nth 3 h 0)
         (nth 4 h 0) (nth 5 h 0) (nth 6 h 0) (nth 7 h 0).

Definition list_of (r : Regs) : list Z :=
  [ra r; rb r; rc r; rd r; re r; rf r; rg r; rh r].

Definition compress (h : list Z) (block : list Z) : list Z :=
  let w := schedule 64 (words 16 block) in
  let r := fold_left round (combine K w) (regs_of h) in
  map (fun p => add32 (fst p) (snd p)) (combine h (list_of r)).

Fixpoint blocks (n : nat) (bytes : list Z) (h : list Z) : list Z :=
  match n with
  | O => h
  | S n' => blocks n' (skipn 64 bytes) (compress h (firstn 64 bytes))
  end.

Definition digest (bytes : list Z) : list Z :=
  let p := pad bytes in
  blocks (List.length p / 64) p H0.

Definition hex_digit (d : Z) : ascii :=
  if d <? 10 then ascii_of_nat (Z.to_nat (48 + d))
  else ascii_of_nat (Z.to_nat (87 + d)).

Fixpoint hex_of_bytes (bytes : list Z) : string :=
  match bytes with
  | [] => EmptyString
  | b :: rest =>
      String (hex_digit (b / 16)) (String (hex_digit (b mod 16)) (hex_of_bytes rest))
  end.

Definition hex (s : string) : string :=
  hex_of_bytes (flat_map (be_bytes 4) (digest (utf8 s))).

End SHA256.

(** A reference world to run the handlers in.  Its mailbox is a list of
    messages in sequence order; a search answers with sequence numbers,
    newest first, and reads the UID range [lo:*] as RFC 3501 does, so that
    the message with the highest UID always matches; a fetch takes
    sequence numbers and yields the messages with their UIDs.  The parser
    reads the source as plain text, a given list of SMTP hosts is
    reachable, and the digest is the SHA-256 above. *)
Module Mailbox.

Record Stored : Type := mkStored {
  st_uid : Z;
  st_date : Z;
  st_source : string
}.

(** The messages with their sequence numbers, counted from [n]. *)
Fixpoint numbered (n : Z) (box : list Stored) : list (Z * Stored) :=
  match box with
  | [] => []
  | m :: box' => (n, m) :: numbered (n + 1) box'
  end.

(** The highest UID of the mailbox, 0 when it is empty. *)
Definition top (box : list Stored) : Z :=
  fold_right (fun m acc => Z.max (st_uid m) acc) 0 box.

Definition matches (box : list Stored) (c : Criteria) (m : Stored) : bool :=
  match c with
  | SearchUid lo => (lo <=? st_uid m) || (st_uid m =? top box)
  | SearchSince since => since <=? st_date m
  end.

Definition search (box : list Stored) (c : Criteria) : result (list Z) :=
  Ok (rev (map fst (filter (fun p => matches box c (snd p)) (numbered 1 box)))).

(** The message with sequence number [id]. *)
Definition lookup (box : list Stored) (id : Z) : option Stored :=
  if id <? 1 then None else nth_error box (Z.to_nat (id - 1)).

(** The UID of the message with sequence number [id]. *)
Definition uid_at (box : list Stored) (id : Z) : Z :=
  match lookup box id with
  | Some m => st_uid m
  | None => 0
  end.

Definition to_msg (m : Stored) : FetchMsg :=
  mkFetchMsg (st_uid m) None None None (st_source m).

Definition fetch (box : list Stored) (ids : list Z)
    : list FetchMsg * option string :=
  (flat_map (fun id => match lookup box id with
                       | Some m => [to_msg m]
                       | None => []
                       end) ids,
   None).

(** UIDs are above [lower] and grow strictly along the mailbox. *)
Fixpoint ascending_from (lower : Z) (box : list Stored) : bool :=
  match box with
  | [] => true
  | m :: box' => (lower <? st_uid m) && ascending_from (st_uid m) box'
  end.

Definition well_formed (box : list Stored) : bool := ascending_from 0 box.

Definition parse (src : string) : result Parsed :=
  Ok (mkParsed (Some "Hello") (Some "alice@example.com") (Some src) None
               None None None RefAbsent).

Definition reachable (up : list string) (o : SessionOptions) : bool :=
  existsb (String.eqb (s_host o)) up.

Definition verify (up : list string) (o : SessionOptions) : result unit :=
  if reachable up o then Ok tt
  else Throw ("cannot reach " ++ s_host o)%string.

Definition sendMail (up : list string) (o : SessionOptions) (m : Mail)
    : result string :=
  if reachable up o then Ok ("<1@" ++ s_host o ++ ">")%string
  else Throw ("cannot reach " ++ s_host o)%string.

Definition env (now : Z) (box : list Stored) (up : list string) : Env :=
  {| date_now := now;
     imap_connect := fun _ => Ok tt;
     imap_getMailboxLock := Ok tt;
     imap_search := search box;
     imap_fetch := fetch box;
     simpleParser := parse;
     smtp_verify := verify up;
     smtp_sendMail := sendMail up;
     sha256_hex := SHA256.hex |}.

End Mailbox.

(** ** Concrete requests and worlds *)

Definition DAY : Z := 24 * 60 * 60 * 1000.

(** Five messages, one per day from day 96 on; it is day 100. *)
Definition box5 : list Mailbox.Stored :=
  [ Mailbox.mkStored 1 (96 * DAY) "one";
    Mailbox.mkStored 2 (97 * DAY) "two";
    Mailbox.mkStored 3 (98 * DAY) "three";
    Mailbox.mkStored 4 (99 * DAY) "four";
    Mailbox.mkStored 5 (100 * DAY)
      ("five   is" ++ String (ascii_of_nat 10) "  here ")%string ].

(** One message, older than the backfill window. *)
Definition box_old : list Mailbox.Stored :=
  [ Mailbox.mkStored 1 (10 * DAY) "old" ].

(** A mailbox whose UIDs are not its sequence numbers: five messages with
    UIDs 205, 309, 412, 518 and 620. *)
Definition box_gap : list Mailbox.Stored :=
  [ Mailbox.mkStored 205 (96 * DAY) "alpha";
    Mailbox.mkStored 309 (97 * DAY) "beta";
    Mailbox.mkStored 412 (98 * DAY) "gamma";
    Mailbox.mkStored 518 (99 * DAY) "delta";
    Mailbox.mkStored 620 (100 * DAY) "epsilon" ].

Definition env_gap : Env := Mailbox.env (100 * DAY) box_gap ["mail.privateemail.com"].
Definition env5 : Env := Mailbox.env (100 * DAY) box5 ["mail.privateemail.com"].
Definition env_old : Env := Mailbox.env (100 * DAY) box_old ["mail.privateemail.com"].
(** Only the secondary SMTP host is reachable; no SMTP host is. *)
Definition env_secondary : Env := Mailbox.env (100 * DAY) box5 ["smtp.privateemail.com"].
Definition env_down : Env := Mailbox.env (100 * DAY) box5 [].

Definition sync_req (cursor limit : option Z) : SyncBody :=
  mkSyncBody (Some "bob@example.com") (Some "secret") cursor None limit None.

Definition test_req : TestBody :=
  mkTestBody (Some "bob@example.com") (Some "secret")
    (Some (mkOverrides None None (Some "evil.example.org") (Some 587) None)).

Definition send_req : SendBody :=
  mkSendBody (Some "bob@example.com") (Some "secret") (Some "carol@example.com")
    None (Some "Hi") (Some "See you") None None
    (Some (mkOverrides None None (Some "evil.example.org") None None)).

(** ** Further notions for the handlers *)

(** The IMAP sessions a run tried to open, in order. *)
Fixpoint imap_sessions (tr : list Event) : list SessionOptions :=
  match tr with
  | [] => []
  | EImapConnect o :: tr' => o :: imap_sessions tr'
  | _ :: tr' => imap_sessions tr'
  end.

Definition is_release (ev : Event) : bool :=
  match ev with
  | EImapRelease => true
  | _ => false
  end.

Definition is_logout (ev : Event) : bool :=
  match ev with
  | EImapLogout => true
  | _ => false
  end.

(** The session [/test] and [/sync] open towards the mailbox. *)
Definition imap_session (advanced : option Overrides) (user pass : string)
    : SessionOptions :=
  mkSession "mail.privateemail.com"
            (nullish (o_imapPort (adv_or_empty advanced)) 993)
            (nullish (o_imapSecure (adv_or_empty advanced)) true)
            user pass.

(** Every character is whitespace. *)
Fixpoint all_ws (s : string) : bool :=
  match s with
  | EmptyString => true
  | String c s' => is_ws c && all_ws s'
  end.

(** The only whitespace character that occurs is the space. *)
Fixpoint only_space_ws (s : string) : bool :=
  match s with
  | EmptyString => true
  | String c s' => (negb (is_ws c) || Ascii.eqb c " ") && only_space_ws s'
  end.

(** How many identifiers [slice(0, limit)] keeps of [len]. *)
Definition kept_count (len : nat) (limit : Z) : nat :=
  if limit <? 0
  then Z.to_nat (Z.max 0 (Z.of_nat len + limit))
  else Nat.min (Z.to_nat limit) len.

(** The validation of [/send]. *)
Definition send_missing (b : SendBody) : bool :=
  falsy (sb_fromEmail b) || falsy (sb_password b) || falsy (sb_to b)
  || falsy (sb_subject b)
  || (falsy (sb_bodyText b) && falsy (sb_bodyHtml b)).

(** Worlds in which a collaborator fails: the IMAP server refuses the
    connection; the mailbox cannot be locked; the search fails; the parser
    rejects the source "four"; the fetch generator breaks after its
    messages. *)
Definition env_refused : Env :=
  mkEnv (date_now env5) (fun _ => Throw "connection refused")
        (imap_getMailboxLock env5) (imap_search env5) (imap_fetch env5)
        (simpleParser env5) (smtp_verify env5) (smtp_sendMail env5)
        (sha256_hex env5).

Definition env_nolock : Env :=
  mkEnv (date_now env5) (imap_connect env5) (Throw "mailbox busy")
        (imap_search env5) (imap_fetch env5)
        (simpleParser env5) (smtp_verify env5) (smtp_sendMail env5)
        (sha256_hex env5).

Definition env_nosearch : Env :=
  mkEnv (date_now env5) (imap_connect env5) (imap_getMailboxLock env5)
        (fun _ => Throw "search failed") (imap_fetch env5)
        (simpleParser env5) (smtp_verify env5) (smtp_sendMail env5)
        (sha256_hex env5).

Definition env_badparse : Env :=
  mkEnv (date_now env5) (imap_connect env5) (imap_getMailboxLock env5)
        (imap_search env5) (imap_fetch env5)
        (fun src => if String.eqb src "four" then Throw "bad MIME"
                    else simpleParser env5 src)
        (smtp_verify env5) (smtp_sendMail env5) (sha256_hex env5).

Definition env_badfetch : Env :=
  mkEnv (date_now env5) (imap_connect env5) (imap_getMailboxLock env5)
        (imap_search env5)
        (fun ids => (fst (imap_fetch env5 ids), Some "connection lost"))
        (simpleParser env5) (smtp_verify env5) (smtp_sendMail env5)
        (sha256_hex env5).

(** * Proofs *)

(** ** Sorting *)

Section SortFacts.
Variable cmp : Z -> Z -> Z.
Let before (x y : Z) : Prop := cmp x y <= 0.
Hypothesis cmp_total : forall x y, 0 < cmp x y -> cmp y x <= 0.
Hypothesis cmp_trans : forall x y z, cmp x y <= 0 -> cmp y z <= 0 -> cmp x z <= 0.

Lemma js_insert_perm (x : Z) (l : list Z) :
  Permutation (x :: l) (js_insert cmp x l).
Proof.
  induction l as [|y l IH]; simpl.
  - apply Permutation_refl.
  - destruct (cmp x y <=? 0).
    + apply Permutation_refl.
    + eapply perm_trans; [apply perm_swap|]. now apply perm_skip.
Qed.

Lemma js_sort_perm (l : list Z) : Permutation l (js_sort cmp l).
Proof.
  induction l as [|x l IH]; simpl.
  - constructor.
  - eapply perm_trans; [apply perm_skip, IH|]. apply js_insert_perm.
Qed.

Lemma js_insert_sorted (x : Z) (l : list Z) :
  StronglySorted before l -> StronglySorted before (js_insert cmp x l).
Proof.
  induction 1 as [|y l Hl IH Hy]; simpl.
  - repeat constructor.
  - destruct (cmp x y <=? 0) eqn:E.
    + apply Z.leb_le in E. constructor.
      * now constructor.
      * constructor; [exact E|].
        eapply Forall_impl; [|exact Hy]. intros z Hz.
        unfold before in *. eauto.
    + apply Z.leb_gt in E. constructor; [exact IH|].
      apply (Permutation_Forall (js_insert_perm x l)).
      constructor; [|exact Hy]. now apply cmp_total.
Qed.

Lemma js_sort_sorted (l : list Z) : StronglySorted before (js_sort cmp l).
Proof.
  induction l as [|x l IH]; simpl.
  - constructor.
  - now apply js_insert_sorted.
Qed.
End SortFacts.

Lemma js_sort_asc_sorted (l : list Z) :
  StronglySorted Z.le (js_sort cmp_asc l).
Proof.
  assert (H : StronglySorted (fun x y => cmp_asc x y <= 0) (js_sort cmp_asc l)).
  { apply js_sort_sorted; unfold cmp_asc; intros; lia. }
  induction H as [|x r Hr IH Hx]; constructor; auto.
  eapply Forall_impl; [|exact Hx]. unfold cmp_asc; intros; lia.
Qed.

Lemma js_sort_desc_sorted (l : list Z) :
  StronglySorted Z.ge (js_sort cmp_desc l).
Proof.
  assert (H : StronglySorted (fun x y => cmp_desc x y <= 0) (js_sort cmp_desc l)).
  { apply js_sort_sorted; unfold cmp_desc; intros; lia. }
  induction H as [|x r Hr IH Hx]; constructor; auto.
  eapply Forall_impl; [|exact Hx]. unfold cmp_desc; intros; lia.
Qed.

Lemma sorted_app_cross {R : Z -> Z -> Prop} {l1 l2 : list Z} :
  StronglySorted R (l1 ++ l2) ->
  forall x y, In x l1 -> In y l2 -> R x y.
Proof.
  induction l1 as [|a l1 IH]; simpl; intros H x y Hx Hy.
  - contradiction.
  - inversion H as [|? ? Hs Ha]; subst. destruct Hx as [<-|Hx].
    + rewrite Forall_forall in Ha. apply Ha, in_or_app. now right.
    + now apply IH.
Qed.

Lemma bound_batch_incl (uids : list Z) (limit : Z) :
  incl (bound_batch uids limit) uids.
Proof.
  intros x Hx. unfold bound_batch in Hx.
  apply (Permutation_in _ (Permutation_sym (js_sort_perm cmp_asc _))) in Hx.
  apply (Permutation_in _ (Permutation_sym (js_sort_perm cmp_desc uids))).
  unfold js_slice0 in Hx.
  rewrite <- (firstn_skipn (if limit <? 0
     then Z.to_nat (Z.max 0 (Z.of_nat (List.length (js_sort cmp_desc uids)) + limit))
     else Z.to_nat limit) (js_sort cmp_desc uids)).
  apply in_or_app. left. destruct (limit <? 0); exact Hx.
Qed.

Lemma bound_batch_sorted (uids : list Z) (limit : Z) :
  StronglySorted Z.le (bound_batch uids limit).
Proof. apply js_sort_asc_sorted. Qed.

(** ** The fetch loop *)

Lemma fetch_loop_ok (env : Env) (ys : list FetchMsg) :
  forall mx acc tr mx' out,
    fetch_loop env ys mx acc = (tr, Ok (mx', out)) ->
    mx' = fold_left Z.max (map uid ys) mx /\
    exists new, out = acc ++ new /\ Forall2 (normalizes env) ys new.
Proof.
  induction ys as [|msg ys IH]; simpl; intros mx acc tr mx' out H.
  - inversion H; subst. split; [reflexivity|].
    exists []. split; [now rewrite app_nil_r | constructor].
  - unfold bind, call in H.
    destruct (simpleParser env (source msg)) as [parsed|e] eqn:Hp; [|discriminate].
    destruct (fetch_loop env ys (Z.max mx (uid msg))
                (acc ++ [normalize env msg parsed])) as [tr' r] eqn:Hl.
    inversion H; subst r.
    destruct (IH _ _ _ _ _ Hl) as [Hmx [new [Hout Hall]]].
    split; [exact Hmx|].
    exists (normalize env msg parsed :: new). split.
    + rewrite Hout, <- app_assoc. reflexivity.
    + constructor; [|exact Hall]. exists parsed. now split.
Qed.

Lemma fold_max_ge (l : list Z) :
  forall mx, mx <= fold_left Z.max l mx /\
             Forall (fun u => u <= fold_left Z.max l mx) l.
Proof.
  induction l as [|u l IH]; simpl; intros mx.
  - split; [lia | constructor].
  - destruct (IH (Z.max mx u)) as [H1 H2]. split; [lia|].
    constructor; [lia | exact H2].
Qed.

Lemma fold_max_in (l : list Z) :
  forall mx, fold_left Z.max l mx = mx \/ In (fold_left Z.max l mx) l.
Proof.
  induction l as [|u l IH]; simpl; intros mx.
  - now left.
  - destruct (IH (Z.max mx u)) as [H|H].
    + rewrite H. destruct (Z.max_spec mx u) as [[_ E]|[_ E]]; rewrite E; auto.
    + auto.
Qed.

(** ** Shape of a successful sync *)

Lemma sync_handler_ok {env : Env} {b : SyncBody} {tr cur msgs} :
  sync_handler env b = (tr, Ok (mkResponse 200 (BSync cur msgs))) ->
  exists found tr',
    imap_search env (sync_criteria env (yb_cursor b) (yb_backfillDays b)) = Ok found /\
    snd (imap_fetch env (bound_batch found (nullish (yb_limit b) 50))) = None /\
    fetch_loop env (sync_batch env b) (sync_start b) [] = (tr', Ok (cur, msgs)).
Proof.
  unfold sync_handler, sync_batch, sync_candidates, sync_start.
  destruct (falsy (yb_email b) || falsy (yb_password b)); [discriminate|].
  unfold finally, try_catch, bind, call, sync_locked, bind, call, ret, json, status_json.
  destruct (imap_connect env _); [|simpl; discriminate].
  destruct (imap_getMailboxLock env); [|simpl; discriminate].
  destruct (imap_search env _) as [found|e]; [|simpl; discriminate].
  simpl.
  destruct (fetch_loop env _ _ _) as [tr' [[mx out]|e]] eqn:Hl; [|simpl; discriminate].
  destruct (snd (imap_fetch env _)) eqn:Hs; simpl; [discriminate|].
  intros H. inversion H; subst.
  exists found, tr'. auto.
Qed.

Lemma sync_batch_uids {env : Env} {uid_of : Z -> Z} {b : SyncBody} {tr cur msgs} :
  fetch_in_order env uid_of ->
  sync_handler env b = (tr, Ok (mkResponse 200 (BSync cur msgs))) ->
  map uid (sync_batch env b)
  = map uid_of (bound_batch (sync_candidates env b) (nullish (yb_limit b) 50)).
Proof.
  intros Hf H. destruct (sync_handler_ok H) as [found [tr' [Hs [Hn _]]]].
  unfold sync_batch, sync_candidates in *. rewrite Hs in *.
  eapply Hf; [exact Hs | apply bound_batch_incl | exact Hn].
Qed.

(** The candidates of a successful sync are what its search returned. *)
Lemma sync_candidates_found {env : Env} {b : SyncBody} {tr cur msgs} :
  sync_handler env b = (tr, Ok (mkResponse 200 (BSync cur msgs))) ->
  imap_search env (sync_criteria env (yb_cursor b) (yb_backfillDays b))
  = Ok (sync_candidates env b).
Proof.
  intros H. destruct (sync_handler_ok H) as [found [tr' [Hs _]]].
  unfold sync_candidates. now rewrite Hs.
Qed.


Lemma sync_cursor_fold {env : Env} {b : SyncBody} {tr cur msgs} :
  sync_handler env b = (tr, Ok (mkResponse 200 (BSync cur msgs))) ->
  cur = fold_left Z.max (map uid (sync_batch env b)) (sync_start b) /\
  Forall2 (normalizes env) (sync_batch env b) msgs.
Proof.
  intros H. destruct (sync_handler_ok H) as [found [tr' [_ [_ Hl]]]].
  destruct (fetch_loop_ok _ _ _ _ _ _ _ Hl) as [Hc [new [Hm Hall]]].
  simpl in Hm. subst new. now split.
Qed.

Lemma sync_start_cursor (b : SyncBody) :
  sync_start b = nullish (yb_cursor b) 0.
Proof.
  unfold sync_start, cursor_truthy, cursor_number.
  destruct (yb_cursor b) as [c|]; simpl; [|reflexivity].
  destruct (Z.eqb_spec c 0); simpl; congruence.
Qed.

(** ** Order, cursor and batch bound of a sync *)



(** ** The failover routes *)

Lemma testImap_returns (env : Env) (user pass : string) (adv : option Overrides) :
  exists tr ic,
    testImap env user pass adv = (tr, Ok ic) /\ smtp_hosts tr = [].
Proof.
  unfold testImap, finally, try_catch, bind, call, ret.
  destruct (imap_connect env _); [destruct (imap_getMailboxLock env)|];
    simpl; eexists; eexists; split; reflexivity.
Qed.

Lemma smtp_hosts_app (tr1 tr2 : list Event) :
  smtp_hosts (tr1 ++ tr2) = smtp_hosts tr1 ++ smtp_hosts tr2.
Proof.
  induction tr1 as [|ev tr1 IH]; simpl; [reflexivity|].
  destruct ev; simpl; rewrite ?IH; reflexivity.
Qed.

Lemma testSmtp_eq (env : Env) (user pass : string) (adv : option Overrides)
    (ov : option string) :
  testSmtp env user pass adv ov =
  let o := smtp_session adv user pass (nullish ov "mail.privateemail.com") in
  ([ESmtpVerify o],
   match smtp_verify env o with
   | Ok _ => Ok (mkSmtpCheck true None (s_host o))
   | Throw e => Ok (mkSmtpCheck false (Some e) (s_host o))
   end).
Proof.
  unfold testSmtp, try_catch, bind, call, ret, smtp_session, cfg, with_smtpHost.
  destruct ov; simpl; destruct (smtp_verify env _); reflexivity.
Qed.

(** C3 (amended).  A verify call with credentials runs the inbound check,
    then tries the primary SMTP host; if that attempt fails it tries the
    secondary host exactly once.  The reported outbound result is the
    attempt that succeeded; when both fail it is the failure of the first
    attempt, with the primary host's name. *)
Theorem verify_outbound_failover (env : Env) (b : TestBody) :
  falsy (tb_email b) || falsy (tb_password b) = false ->
  let user := or_else (tb_email b) "" in
  let pass := or_else (tb_password b) "" in
  let o1 := smtp_session (tb_advanced b) user pass "mail.privateemail.com" in
  let o2 := smtp_session (tb_advanced b) user pass "smtp.privateemail.com" in
  exists tri ic,
    testImap env user pass (tb_advanced b) = (tri, Ok ic) /\
    match smtp_verify env o1 with
    | Ok _ =>
        test_handler env b =
        (tri ++ [ESmtpVerify o1],
         Ok (json (BTest (ic_ok ic && true) ic
                     (mkSmtpCheck true None "mail.privateemail.com"))))
    | Throw e1 =>
        match smtp_verify env o2 with
        | Ok _ =>
            test_handler env b =
            (tri ++ [ESmtpVerify o1; ESmtpVerify o2],
             Ok (json (BTest (ic_ok ic && true) ic
                         (mkSmtpCheck true None "smtp.privateemail.com"))))
        | Throw _ =>
            test_handler env b =
            (tri ++ [ESmtpVerify o1; ESmtpVerify o2],
             Ok (json (BTest (ic_ok ic && false) ic
                         (mkSmtpCheck false (Some e1) "mail.privateemail.com"))))
        end
    end.
Proof.
  intros Hv user pass o1 o2.
  destruct (testImap_returns env user pass (tb_advanced b)) as [tri [ic [Hi _]]].
  exists tri, ic. split; [exact Hi|].
  unfold test_handler. rewrite Hv. fold user pass. rewrite Hi.
  rewrite !testSmtp_eq. simpl nullish. fold o1 o2. unfold bind, ret.
  destruct (smtp_verify env o1) as [[]|e1]; simpl.
  - rewrite ?app_nil_r. reflexivity.
  - destruct (smtp_verify env o2) as [[]|e2]; simpl; rewrite ?app_nil_r; reflexivity.
Qed.

Lemma trySend_eq (env : Env) (b : SendBody) (host : string) :
  trySend env b host =
  let o := smtp_session (sb_advanced b) (or_else (sb_fromEmail b) "")
                        (or_else (sb_password b) "") host in
  ([ESmtpSend o (mail_of b)],
   match smtp_sendMail env o (mail_of b) with
   | Ok info => Ok (json (BSend info host))
   | Throw e => Throw e
   end).
Proof.
  unfold trySend, bind, call, ret, smtp_session, cfg, with_smtpHost. simpl.
  destruct (smtp_sendMail env _ _); reflexivity.
Qed.

(** C6.  A send call with the required fields hands one message,
    [mail_of b], to the primary host.  If that attempt returns, the call
    answers with it and nothing else is sent.  If it throws, the same
    message is handed once to the secondary host through a session that
    differs from the first in the host only; the call answers with that
    attempt, or with status 500 and its error when it throws too.  So an
    answer with status 200 comes with exactly one accepted delivery, and an
    answer with status 500 with none. *)
Theorem send_failover (env : Env) (b : SendBody) :
  falsy (sb_fromEmail b) || falsy (sb_password b) || falsy (sb_to b)
    || falsy (sb_subject b)
    || (falsy (sb_bodyText b) && falsy (sb_bodyHtml b)) = false ->
  let user := or_else (sb_fromEmail b) "" in
  let pass := or_else (sb_password b) "" in
  let o1 := smtp_session (sb_advanced b) user pass "mail.privateemail.com" in
  let o2 := smtp_session (sb_advanced b) user pass "smtp.privateemail.com" in
  let m := mail_of b in
  (s_port o2 = s_port o1 /\ s_secure o2 = s_secure o1 /\
   s_user o2 = s_user o1 /\ s_pass o2 = s_pass o1) /\
  match smtp_sendMail env o1 m with
  | Ok id =>
      send_handler env b =
      ([ESmtpSend o1 m], Ok (json (BSend id "mail.privateemail.com")))
  | Throw _ =>
      match smtp_sendMail env o2 m with
      | Ok id =>
          send_handler env b =
          ([ESmtpSend o1 m; ESmtpSend o2 m],
           Ok (json (BSend id "smtp.privateemail.com")))
      | Throw e =>
          send_handler env b =
          ([ESmtpSend o1 m; ESmtpSend o2 m], Ok (status_json 500 (BError e)))
      end
  end.
Proof.
  intros Hv user pass o1 o2 m. split; [now repeat split|].
  unfold send_handler. rewrite Hv, !trySend_eq. fold user pass o1 o2 m.
  unfold try_catch, ret. cbv zeta.
  destruct (smtp_sendMail env o1 m) as [id|e1]; [reflexivity|].
  destruct (smtp_sendMail env o2 m) as [id|e2]; reflexivity.
Qed.

(** C9.  On [/test] and on [/send] the [smtpHost] of [advanced] has no
    effect: replacing it by any other value leaves the run unchanged, and
    the SMTP hosts a run contacts are, in order, an initial part of
    mail.privateemail.com followed by smtp.privateemail.com. *)
Theorem smtp_host_override_ignored (env : Env) :
  (forall email password advanced h,
     test_handler env
       (mkTestBody email password (Some (with_smtpHost (adv_or_empty advanced) h)))
     = test_handler env (mkTestBody email password advanced)) /\
  (forall b, exists n,
     smtp_hosts (fst (test_handler env b))
     = firstn n ["mail.privateemail.com"; "smtp.privateemail.com"]) /\
  (forall f p t cc s bt bh hd advanced h,
     send_handler env
       (mkSendBody f p t cc s bt bh hd (Some (with_smtpHost (adv_or_empty advanced) h)))
     = send_handler env (mkSendBody f p t cc s bt bh hd advanced)) /\
  (forall b, exists n,
     smtp_hosts (fst (send_handler env b))
     = firstn n ["mail.privateemail.com"; "smtp.privateemail.com"]).
Proof.
  split; [|split; [|split]].
  - intros email password advanced h. unfold test_handler, testImap. simpl.
    rewrite !testSmtp_eq. reflexivity.
  - intros b. unfold test_handler.
    destruct (falsy (tb_email b) || falsy (tb_password b)); [now exists 0%nat|].
    destruct (testImap_returns env (or_else (tb_email b) "")
                (or_else (tb_password b) "") (tb_advanced b)) as [tri [ic [Hi Hh]]].
    rewrite Hi, !testSmtp_eq. unfold bind, ret. cbv zeta.
    destruct (smtp_verify env _) as [[]|e1]; simpl.
    + exists 1%nat. now rewrite !smtp_hosts_app, Hh.
    + destruct (smtp_verify env _) as [[]|e2]; simpl;
        exists 2%nat; now rewrite !smtp_hosts_app, Hh.
  - intros. unfold send_handler. simpl. rewrite !trySend_eq. reflexivity.
  - intros b. unfold send_handler.
    destruct (_ || _); [now exists 0%nat|].
    rewrite !trySend_eq. unfold try_catch, ret. cbv zeta.
    destruct (smtp_sendMail env _ _) as [id|e1]; [now exists 1%nat|].
    destruct (smtp_sendMail env _ _) as [id|e2]; now exists 2%nat.
Qed.

(** C10.  A [/sync] request that passes the API-key check and lacks
    [email] or [password] (absent or empty) is answered with status 400 and
    an error body, and no collaborator is called: no connection is opened
    and nothing of the synchronisation runs. *)
Theorem sync_missing_credentials (API_KEY : string) (env : Env)
    (key : option string) (b : SyncBody) :
  safeEqual key (Some API_KEY) = true ->
  falsy (yb_email b) = true \/ falsy (yb_password b) = true ->
  route_sync API_KEY env key b
  = ([], Ok (mkResponse 400 (BError "Missing email/password"))).
Proof.
  intros Hk Hm. unfold route_sync, requireApiKey, sync_handler.
  rewrite Hk. simpl.
  destruct Hm as [-> | ->]; [reflexivity|].
  rewrite orb_true_r. reflexivity.
Qed.

(** ** Strings *)

Lemma no_ws_run_cons (c : ascii) (s : string) :
  no_ws_run (String c s) = negb (is_ws c && starts_ws s) && no_ws_run s.
Proof. destruct s; simpl; [now rewrite andb_false_r | reflexivity]. Qed.

Lemma str_take_length (n : nat) (s : string) :
  (String.length (str_take n s) <= n)%nat.
Proof.
  revert s. induction n as [|n IH]; intros [|c s]; simpl; try lia.
  specialize (IH s). lia.
Qed.

Lemma str_take_starts (n : nat) (s : string) :
  starts_ws (str_take n s) = true -> starts_ws s = true.
Proof. destruct n, s; simpl; auto; discriminate. Qed.

Lemma str_take_no_ws_run (n : nat) (s : string) :
  no_ws_run s = true -> no_ws_run (str_take n s) = true.
Proof.
  revert s. induction n as [|n IH]; intros [|c s]; try reflexivity.
  rewrite no_ws_run_cons. intros H. apply andb_prop in H as [H1 H2].
  change (str_take (S n) (String c s)) with (String c (str_take n s)).
  rewrite no_ws_run_cons, (IH s H2), andb_true_r.
  destruct (is_ws c); [|reflexivity]. simpl in *.
  destruct (starts_ws (str_take n s)) eqn:E; [|reflexivity].
  apply str_take_starts in E. now rewrite E in H1.
Qed.

Lemma trim_start_no_ws_run (s : string) :
  no_ws_run s = true -> no_ws_run (trim_start s) = true.
Proof.
  induction s as [|c s IH]; [reflexivity|].
  intros H. simpl trim_start. destruct (is_ws c); [|exact H].
  rewrite no_ws_run_cons in H. apply andb_prop in H as [_ H]. auto.
Qed.

Lemma trim_end_starts (s : string) :
  starts_ws (trim_end s) = true -> starts_ws s = true.
Proof.
  destruct s as [|c s]; simpl; [auto|].
  destruct (trim_end s); [destruct (is_ws c) eqn:E|]; simpl; intros H;
    try discriminate; congruence.
Qed.

Lemma trim_end_no_ws_run (s : string) :
  no_ws_run s = true -> no_ws_run (trim_end s) = true.
Proof.
  induction s as [|c s IH]; [reflexivity|].
  rewrite no_ws_run_cons. intros H. apply andb_prop in H as [H1 H2].
  specialize (IH H2). simpl trim_end.
  destruct (trim_end s) as [|d r] eqn:E.
  - destruct (is_ws c); reflexivity.
  - rewrite no_ws_run_cons, IH, andb_true_r.
    destruct (is_ws c); [|reflexivity]. simpl in *.
    destruct (is_ws d) eqn:Ed; [|reflexivity].
    assert (Hs : starts_ws (trim_end s) = true) by (rewrite E; exact Ed).
    apply trim_end_starts in Hs. now rewrite Hs in H1.
Qed.

Lemma collapse_from_no_ws_run (s : string) :
  forall in_run,
    no_ws_run (collapse_from in_run s) = true /\
    (in_run = true -> starts_ws (collapse_from in_run s) = false).
Proof.
  induction s as [|c s IH]; intros in_run; [now split|].
  simpl collapse_from. destruct (is_ws c) eqn:Ec.
  - destruct in_run.
    + apply IH.
    + destruct (IH true) as [H1 H2]. split; [|discriminate].
      rewrite no_ws_run_cons, H1, (H2 eq_refl), andb_false_r. reflexivity.
  - destruct (IH false) as [H1 _]. split.
    + rewrite no_ws_run_cons, H1, Ec. reflexivity.
    + intros _. simpl. exact Ec.
Qed.

(** What [no_ws_run] says, without recursion: nowhere in the string do two
    whitespace characters stand side by side. *)
Lemma no_ws_run_spec (s : string) :
  no_ws_run s = true ->
  forall pre c d post,
    s = (pre ++ String c (String d post))%string ->
    is_ws c && is_ws d = false.
Proof.
  intros H pre. revert s H. induction pre as [|a pre IH]; intros s H c d post E.
  - subst s. simpl in H. apply andb_prop in H as [H _].
    now apply negb_true_iff in H.
  - subst s. change ((String a pre ++ String c (String d post))%string)
      with (String a (pre ++ String c (String d post))%string) in H.
    rewrite no_ws_run_cons in H. apply andb_prop in H as [_ H].
    eapply IH; [exact H | reflexivity].
Qed.

Lemma snippet_shape (s : string) :
  Z.of_nat (String.length (str_slice0 (trim (collapse_ws s)) 240)) <= 240 /\
  no_ws_run (str_slice0 (trim (collapse_ws s)) 240) = true.
Proof.
  unfold str_slice0. split.
  - pose proof (str_take_length (Z.to_nat 240) (trim (collapse_ws s))). lia.
  - apply str_take_no_ws_run, trim_end_no_ws_run, trim_start_no_ws_run.
    apply (collapse_from_no_ws_run s false).
Qed.

Lemma normalize_bounded (env : Env) (msg : FetchMsg) (parsed : Parsed) :
  bounded_message (normalize env msg parsed).
Proof.
  unfold bounded_message, normalize; cbn [snippet bodyText bodyHtml].
  destruct (snippet_shape (or_else (p_text parsed)
              (or_str (or_else (p_subject parsed)
                         (or_else (envelope_subject msg) "(no subject)")) "")))
    as [H1 H2].
  split; [exact H1|]. split; [exact H2|]. unfold str_slice0. split.
  - pose proof (str_take_length (Z.to_nat 20000) (or_else (p_text parsed) "")). lia.
  - pose proof (str_take_length (Z.to_nat 20000) (or_else (p_html parsed) "")). lia.
Qed.

(** C8.  Every message a sync returns has a snippet of at most 240
    characters in which no two whitespace characters are adjacent, and a
    text body and an HTML body of at most 20000 characters each. *)
Theorem sync_messages_bounded (env : Env) (b : SyncBody) tr cur msgs :
  sync_handler env b = (tr, Ok (mkResponse 200 (BSync cur msgs))) ->
  Forall (fun m =>
            Z.of_nat (String.length (snippet m)) <= 240 /\
            no_ws_run (snippet m) = true /\
            Z.of_nat (String.length (bodyText m)) <= 20000 /\
            Z.of_nat (String.length (bodyHtml m)) <= 20000) msgs.
Proof.
  intros H. destruct (sync_cursor_fold H) as [_ Hall]. clear H.
  induction Hall as [|msg m batch ms [parsed [_ ->]] _ IH]; constructor.
  - apply normalize_bounded.
  - exact IH.
Qed.

(** ** The thread key *)

Lemma str_app_inv_l (s a b : string) :
  (s ++ a)%string = (s ++ b)%string -> a = b.
Proof.
  induction s as [|c s IH]; simpl; intros H; [exact H|].
  injection H as H. auto.
Qed.

Lemma threadKeyInput_inj (refs : list string) (irt mid subj f1 f2 : string) :
  threadKeyInput refs irt mid subj f1 = threadKeyInput refs irt mid subj f2 ->
  f1 = f2.
Proof.
  unfold threadKeyInput. intros H.
  apply str_app_inv_l in H. now injection H.
Qed.

(** C5 (amended).  The thread key of a normalised message is [threadKey]
    of its own [references], [inReplyTo], [messageId], [subject] and
    [fromEmail], so two messages that agree on these five fields carry the
    same key, whichever requests produced them.  For equal threading
    headers two different senders give two different hashed strings; their
    keys are the digests of these strings, so equal keys for different
    senders are a collision of the digest. *)
Theorem threadKey_function_of_tuple :
  (forall env1 env2 msg1 msg2 parsed1 parsed2,
     let m1 := normalize env1 msg1 parsed1 in
     let m2 := normalize env2 msg2 parsed2 in
     sha256_hex env1 = sha256_hex env2 ->
     references m1 = references m2 ->
     inReplyTo m1 = inReplyTo m2 ->
     messageId m1 = messageId m2 ->
     subject m1 = subject m2 ->
     fromEmail m1 = fromEmail m2 ->
     externalThreadKey m1 = externalThreadKey m2) /\
  (forall env msg parsed,
     let m := normalize env msg parsed in
     externalThreadKey m
     = threadKey (sha256_hex env) (references m) (inReplyTo m) (messageId m)
                 (subject m) (fromEmail m)) /\
  (forall sha refs irt mid subj f1 f2,
     f1 <> f2 ->
     threadKeyInput refs irt mid subj f1 <> threadKeyInput refs irt mid subj f2 /\
     (threadKey sha refs irt mid subj f1 = threadKey sha refs irt mid subj f2 ->
      exists x y, x <> y /\ sha x = sha y)).
Proof.
  split; [|split].
  - intros env1 env2 msg1 msg2 parsed1 parsed2 m1 m2 Hs Hr Hi Hm Hsu Hf.
    unfold m1, m2, normalize in *. cbn in *.
    now rewrite Hs, Hr, Hi, Hm, Hsu, Hf.
  - reflexivity.
  - intros sha refs irt mid subj f1 f2 Hne.
    assert (Hin : threadKeyInput refs irt mid subj f1
                  <> threadKeyInput refs irt mid subj f2).
    { intros E. apply Hne. eapply threadKeyInput_inj. exact E. }
    split; [exact Hin|]. intros Hk.
    exists (threadKeyInput refs irt mid subj f1),
           (threadKeyInput refs irt mid subj f2).
    split; [exact Hin | exact Hk].
Qed.

(** ** Cursor against first sync *)








(** ** The reference world obeys the contracts *)

Lemma numbered_nth (box : list Mailbox.Stored) :
  forall n i m,
    In (i, m) (Mailbox.numbered n box) ->
    n <= i /\ nth_error box (Z.to_nat (i - n)) = Some m.
Proof.
  induction box as [|x box IH]; simpl; intros n i m H; [contradiction|].
  destruct H as [E|H].
  - injection E as <- <-. split; [lia|].
    replace (n - n) with 0 by lia. reflexivity.
  - destruct (IH _ _ _ H) as [Hle Hn]. split; [lia|].
    replace (Z.to_nat (i - n)) with (S (Z.to_nat (i - (n + 1)))) by lia.
    exact Hn.
Qed.

Lemma mailbox_found (box : list Mailbox.Stored) (c : Criteria) (found : list Z)
    (id : Z) :
  Mailbox.search box c = Ok found -> In id found ->
  exists m, Mailbox.lookup box id = Some m /\ Mailbox.matches box c m = true.
Proof.
  unfold Mailbox.search. intros H Hin. injection H as <-.
  apply in_rev, in_map_iff in Hin as [[i m] [E Hm]]. simpl in E. subst i.
  apply filter_In in Hm as [Hm Hc]. simpl in Hc.
  destruct (numbered_nth box 1 id m Hm) as [Hle Hn].
  exists m. split; [|exact Hc].
  unfold Mailbox.lookup. destruct (Z.ltb_spec id 1); [lia | exact Hn].
Qed.

Lemma mailbox_fetch_in_order (now : Z) (box : list Mailbox.Stored)
    (up : list string) :
  fetch_in_order (Mailbox.env now box up) (Mailbox.uid_at box).
Proof.
  intros c found ids Hs Hincl _. simpl in *.
  induction ids as [|id ids IH]; simpl; [reflexivity|].
  destruct (mailbox_found box c found id Hs (Hincl id (or_introl eq_refl)))
    as [m [Hl _]].
  rewrite map_app. unfold Mailbox.uid_at at 1. rewrite Hl. simpl. f_equal.
  apply IH. intros x Hx. apply Hincl. now right.
Qed.

Lemma ascending_from_nth (box : list Mailbox.Stored) :
  forall lo i m,
    Mailbox.ascending_from lo box = true -> nth_error box i = Some m ->
    lo < Mailbox.st_uid m.
Proof.
  induction box as [|x box IH]; intros lo i m Hw Hn.
  - destruct i; discriminate.
  - simpl in Hw. apply andb_prop in Hw as [Hx Hw]. apply Z.ltb_lt in Hx.
    destruct i as [|i]; simpl in Hn.
    + injection Hn as <-. exact Hx.
    + specialize (IH _ _ _ Hw Hn). lia.
Qed.

Lemma ascending_from_mono (box : list Mailbox.Stored) :
  forall lo i j m m',
    Mailbox.ascending_from lo box = true ->
    nth_error box i = Some m -> nth_error box j = Some m' ->
    (i <= j)%nat -> Mailbox.st_uid m <= Mailbox.st_uid m'.
Proof.
  induction box as [|x box IH]; intros lo i j m m' Hw Hi Hj Hij.
  - destruct i; discriminate.
  - simpl in Hw. apply andb_prop in Hw as [_ Hw].
    destruct i as [|i], j as [|j]; simpl in Hi, Hj.
    + injection Hi as <-. injection Hj as <-. lia.
    + injection Hi as <-. pose proof (ascending_from_nth box _ _ _ Hw Hj). lia.
    + lia.
    + apply (IH _ i j m m' Hw Hi Hj). lia.
Qed.

Lemma mailbox_uid_ascending (now : Z) (box : list Mailbox.Stored)
    (up : list string) :
  Mailbox.well_formed box = true ->
  uid_ascending (Mailbox.env now box up) (Mailbox.uid_at box).
Proof.
  intros Hw c found a b Hs Ha Hb Hab. simpl in Hs.
  destruct (mailbox_found box c found a Hs Ha) as [m [Hla _]].
  destruct (mailbox_found box c found b Hs Hb) as [m' [Hlb _]].
  unfold Mailbox.uid_at. rewrite Hla, Hlb.
  unfold Mailbox.lookup in Hla, Hlb.
  destruct (Z.ltb_spec a 1); [discriminate|].
  destruct (Z.ltb_spec b 1); [discriminate|].
  apply (ascending_from_mono box 0 _ _ m m' Hw Hla Hlb). lia.
Qed.

Lemma mailbox_uid_positive (now : Z) (box : list Mailbox.Stored)
    (up : list string) :
  Mailbox.well_formed box = true ->
  uid_positive (Mailbox.env now box up) (Mailbox.uid_at box).
Proof.
  intros Hw c found id Hs Hin. simpl in Hs.
  destruct (mailbox_found box c found id Hs Hin) as [m [Hl _]].
  unfold Mailbox.uid_at. rewrite Hl. unfold Mailbox.lookup in Hl.
  destruct (id <? 1); [discriminate|].
  exact (ascending_from_nth box 0 _ m Hw Hl).
Qed.

Lemma mailbox_top_ge (box : list Mailbox.Stored) (m : Mailbox.Stored) :
  In m box -> Mailbox.st_uid m <= Mailbox.top box.
Proof.
  unfold Mailbox.top. induction box as [|x box IH]; simpl; [contradiction|].
  intros [<-|H]; [lia|]. specialize (IH H). lia.
Qed.

Lemma mailbox_search_uid_range (now : Z) (box : list Mailbox.Stored)
    (up : list string) :
  search_uid_range (Mailbox.env now box up) (Mailbox.uid_at box) (Mailbox.top box).
Proof.
  split.
  - intros c found id Hs Hin. simpl in Hs.
    destruct (mailbox_found box c found id Hs Hin) as [m [Hl _]].
    unfold Mailbox.uid_at. rewrite Hl. apply mailbox_top_ge.
    unfold Mailbox.lookup in Hl. destruct (id <? 1); [discriminate|].
    eapply nth_error_In. exact Hl.
  - intros lo found id Hs Hin. simpl in Hs.
    destruct (mailbox_found box _ found id Hs Hin) as [m [Hl Hm]].
    unfold Mailbox.uid_at. rewrite Hl. simpl in Hm.
    destruct (Z.le_gt_cases lo (Mailbox.st_uid m)) as [Hle|Hgt]; [now left|].
    right. apply orb_prop in Hm as [Hm|Hm]; [apply Z.leb_le in Hm; lia|].
    apply Z.eqb_eq in Hm. lia.
Qed.

(** ** The theorems at concrete requests *)

Lemma env_gap_fetch : fetch_in_order env_gap (Mailbox.uid_at box_gap).
Proof. apply mailbox_fetch_in_order. Qed.

Lemma env_gap_ascending : uid_ascending env_gap (Mailbox.uid_at box_gap).
Proof. apply mailbox_uid_ascending. reflexivity. Qed.

Lemma env_gap_positive : uid_positive env_gap (Mailbox.uid_at box_gap).
Proof. apply mailbox_uid_positive. reflexivity. Qed.

Lemma env_gap_range :
  search_uid_range env_gap (Mailbox.uid_at box_gap) (Mailbox.top box_gap).
Proof. apply mailbox_search_uid_range. Qed.



Lemma sync_messages_bounded_witness :
  let b := sync_req None None in
  map snippet (response_messages (sync_handler env5 b))
  = ["one"; "two"; "three"; "four"; "five is here"] /\
  Forall (fun m =>
            Z.of_nat (String.length (snippet m)) <= 240 /\
            no_ws_run (snippet m) = true /\
            Z.of_nat (String.length (bodyText m)) <= 20000 /\
            Z.of_nat (String.length (bodyHtml m)) <= 20000)
         (response_messages (sync_handler env5 b)).
Proof.
  intros b. split; [vm_compute; reflexivity|].
  apply (sync_messages_bounded env5 b (fst (sync_handler env5 b)) 5).
  vm_compute. reflexivity.
Defined.

Lemma sync_missing_credentials_witness :
  route_sync "k3y" env5 (Some "k3y")
    (mkSyncBody (Some "bob@example.com") None (Some 3) None None None)
  = ([], Ok (mkResponse 400 (BError "Missing email/password"))).
Proof.
  apply sync_missing_credentials; [reflexivity | right; reflexivity].
Defined.

Lemma verify_outbound_failover_witness :
  let user := "bob@example.com" in
  let pass := "secret" in
  let o1 := smtp_session (tb_advanced test_req) user pass "mail.privateemail.com" in
  let o2 := smtp_session (tb_advanced test_req) user pass "smtp.privateemail.com" in
  exists tri ic,
    testImap env_secondary user pass (tb_advanced test_req) = (tri, Ok ic) /\
    test_handler env_secondary test_req =
    (tri ++ [ESmtpVerify o1; ESmtpVerify o2],
     Ok (json (BTest (ic_ok ic && true) ic
                 (mkSmtpCheck true None "smtp.privateemail.com")))).
Proof.
  exact (verify_outbound_failover env_secondary test_req eq_refl).
Defined.

Lemma send_failover_witness :
  let o1 := smtp_session (sb_advanced send_req) "bob@example.com" "secret"
              "mail.privateemail.com" in
  let o2 := smtp_session (sb_advanced send_req) "bob@example.com" "secret"
              "smtp.privateemail.com" in
  send_handler env_secondary send_req =
  ([ESmtpSend o1 (mail_of send_req); ESmtpSend o2 (mail_of send_req)],
   Ok (json (BSend "<1@smtp.privateemail.com>" "smtp.privateemail.com"))).
Proof.
  exact (proj2 (send_failover env_secondary send_req eq_refl)).
Defined.

Lemma threadKey_function_of_tuple_witness :
  threadKeyInput [] "" "" "(no subject)" "alice@example.com"
  <> threadKeyInput [] "" "" "(no subject)" "bob@example.com" /\
  threadKey SHA256.hex [] "" "" "(no subject)" "alice@example.com"
  <> threadKey SHA256.hex [] "" "" "(no subject)" "bob@example.com".
Proof.
  split.
  - apply (proj2 (proj2 threadKey_function_of_tuple) SHA256.hex).
    discriminate.
  - intros H. vm_compute in H. discriminate H.
Defined.


(** ** Where the code departs from the claims *)

(** C3, as stated, fails: with no SMTP host reachable the second attempt
    fails with its own error, and the verify call reports the failure of
    the first attempt instead. *)
Lemma verify_second_failure_not_reported :
  let second :=
    mkSmtpCheck false (Some "cannot reach smtp.privateemail.com")
                "smtp.privateemail.com" in
  smtp_hosts (fst (test_handler env_down test_req))
  = ["mail.privateemail.com"; "smtp.privateemail.com"] /\
  snd (testSmtp env_down "bob@example.com" "secret" (tb_advanced test_req)
         (Some "smtp.privateemail.com")) = Ok second /\
  snd (test_handler env_down test_req)
  = Ok (json (BTest false (mkImapCheck true None)
                (mkSmtpCheck false (Some "cannot reach mail.privateemail.com")
                             "mail.privateemail.com"))) /\
  forall tr ok imap,
    test_handler env_down test_req <> (tr, Ok (json (BTest ok imap second))).
Proof.
  intros second. repeat split; try (vm_compute; reflexivity).
  intros tr ok imap H. apply (f_equal snd) in H. vm_compute in H. discriminate H.
Qed.



(** C7.  The code does not keep the claim: in the steady state the newest
    message comes twice.  A first sync of the mailbox with the UIDs 205 to
    620 returns all five messages and the cursor 620.  The next sync is
    given that cursor and nothing has arrived: it searches 621:*, the
    search matches the message 620, and that message is fetched and
    returned again. *)
Theorem sync_steady_state_redelivers :
  map uid (sync_batch env_gap (sync_req None None)) = [205; 309; 412; 518; 620] /\
  snd (sync_handler env_gap (sync_req None None))
  = Ok (json (BSync 620 (response_messages
                           (sync_handler env_gap (sync_req None None))))) /\
  yb_cursor (sync_req (Some 620) None) = Some 620 /\
  searches (fst (sync_handler env_gap (sync_req (Some 620) None)))
  = [SearchUid 621] /\
  map uid (sync_batch env_gap (sync_req (Some 620) None)) = [620] /\
  snd (sync_handler env_gap (sync_req (Some 620) None))
  = Ok (json (BSync 620 (response_messages
                           (sync_handler env_gap (sync_req (Some 620) None))))) /\
  List.length (response_messages (sync_handler env_gap (sync_req (Some 620) None)))
  = 1%nat /\
  In 620 (map uid (sync_batch env_gap (sync_req None None))) /\
  In 620 (map uid (sync_batch env_gap (sync_req (Some 620) None))).
Proof.
  repeat split; try (vm_compute; reflexivity); vm_compute; tauto.
Qed.

(** *** Digests are too few to tell all senders apart *)

Lemma be_bytes_range (n : nat) :
  forall x, Forall (fun b => 0 <= b < 256) (SHA256.be_bytes n x).
Proof.
  induction n as [|n IH]; intros x; simpl; [constructor|].
  apply Forall_app. split; [apply IH|].
  constructor; [|constructor]. apply Z.mod_pos_bound. lia.
Qed.

Lemma be_bytes_length (n : nat) :
  forall x, List.length (SHA256.be_bytes n x) = n.
Proof.
  induction n as [|n IH]; intros x; simpl; [reflexivity|].
  rewrite length_app, IH. simpl. lia.
Qed.

Lemma word_bytes_range (ws : list Z) :
  Forall (fun b => 0 <= b < 256) (flat_map (SHA256.be_bytes 4) ws).
Proof.
  induction ws as [|w ws IH]; [constructor|].
  change (flat_map (SHA256.be_bytes 4) (w :: ws))
    with (SHA256.be_bytes 4 w ++ flat_map (SHA256.be_bytes 4) ws).
  apply Forall_app. split; [apply be_bytes_range | exact IH].
Qed.

Lemma word_bytes_length (ws : list Z) :
  List.length (flat_map (SHA256.be_bytes 4) ws) = (4 * List.length ws)%nat.
Proof.
  induction ws as [|w ws IH]; [reflexivity|].
  change (flat_map (SHA256.be_bytes 4) (w :: ws))
    with (SHA256.be_bytes 4 w ++ flat_map (SHA256.be_bytes 4) ws).
  rewrite length_app, be_bytes_length, IH. simpl. lia.
Qed.

Lemma compress_length (h block : list Z) :
  List.length h = 8%nat -> List.length (SHA256.compress h block) = 8%nat.
Proof.
  intros Hh. unfold SHA256.compress.
  generalize (fold_left SHA256.round
                (combine SHA256.K (SHA256.schedule 64 (SHA256.words 16 block)))
                (SHA256.regs_of h)).
  intros r. rewrite length_map, length_combine, Hh. reflexivity.
Qed.

Lemma blocks_length (n : nat) :
  forall bytes h,
    List.length h = 8%nat -> List.length (SHA256.blocks n bytes h) = 8%nat.
Proof.
  induction n as [|n IH]; intros bytes h Hh; [exact Hh|].
  change (SHA256.blocks (S n) bytes h)
    with (SHA256.blocks n (skipn 64 bytes) (SHA256.compress h (firstn 64 bytes))).
  apply IH, compress_length, Hh.
Qed.

Lemma digest_length (bytes : list Z) :
  List.length (SHA256.digest bytes) = 8%nat.
Proof. unfold SHA256.digest. apply blocks_length. reflexivity. Qed.

Lemma hex_digit_in (d : Z) : 0 <= d < 16 -> In (SHA256.hex_digit d) hex_chars.
Proof.
  intros H.
  assert (Hd : In d [0; 1; 2; 3; 4; 5; 6; 7; 8; 9; 10; 11; 12; 13; 14; 15])
    by (simpl; lia).
  simpl in Hd.
  repeat (destruct Hd as [<-|Hd]; [vm_compute; tauto|]).
  contradiction.
Qed.

Lemma hex_of_bytes_hex (bytes : list Z) :
  Forall (fun b => 0 <= b < 256) bytes ->
  is_hex_string (SHA256.hex_of_bytes bytes).
Proof.
  induction 1 as [|b bytes Hb _ IH]; simpl; [exact I|].
  split; [|split; [|exact IH]]; apply hex_digit_in.
  - split; [apply Z.div_pos; lia | apply Z.div_lt_upper_bound; lia].
  - apply Z.mod_pos_bound. lia.
Qed.

Lemma hex_of_bytes_length (bytes : list Z) :
  String.length (SHA256.hex_of_bytes bytes) = (2 * List.length bytes)%nat.
Proof.
  induction bytes as [|b bytes IH]; simpl; [reflexivity|]. rewrite IH. lia.
Qed.

Lemma hex_strings_complete (s : string) :
  is_hex_string s -> In s (hex_strings (String.length s)).
Proof.
  induction s as [|c s IH]; intros H; [now left|].
  destruct H as [Hc Hs].
  change (hex_strings (String.length (String c s)))
    with (flat_map (fun c => map (String c) (hex_strings (String.length s)))
                   hex_chars).
  apply in_flat_map. exists c. split; [exact Hc|].
  apply in_map. apply IH, Hs.
Qed.

(** Every digest is one of the strings of 64 hexadecimal digits. *)
Lemma sha256_hex_in (s : string) : In (SHA256.hex s) (hex_strings 64).
Proof.
  assert (Hlen : String.length (SHA256.hex s) = 64%nat).
  { unfold SHA256.hex.
    rewrite hex_of_bytes_length, word_bytes_length, digest_length. reflexivity. }
  rewrite <- Hlen. apply hex_strings_complete.
  unfold SHA256.hex. apply hex_of_bytes_hex, word_bytes_range.
Qed.

Lemma a_string_length (n : nat) : String.length (a_string n) = n.
Proof. induction n as [|n IH]; simpl; [reflexivity | now rewrite IH]. Qed.

Lemma NoDup_map_separating {A B : Type} (f : A -> B) (l : list A) :
  (forall x y, x <> y -> f x <> f y) -> NoDup l -> NoDup (map f l).
Proof.
  intros Hf Hl. induction Hl as [|a l Ha _ IH]; simpl; constructor; [|exact IH].
  intros Hin. apply in_map_iff in Hin as [x [E Hx]].
  apply (Hf x a); [|exact E]. intros ->. contradiction.
Qed.

(** C5, as stated, fails: it is not so that different senders always get
    different keys.  The keys are among the finitely many strings of 64
    hexadecimal digits, and there are more senders than that; so for the
    headers of a message without references, in-reply-to and message id,
    two senders share a key. *)
Lemma threadKey_senders_collide :
  ~ (forall f1 f2 : string,
       f1 <> f2 ->
       threadKey SHA256.hex [] "" "" "(no subject)" f1
       <> threadKey SHA256.hex [] "" "" "(no subject)" f2).
Proof.
  intros Hsep.
  pose proof sha256_hex_in as Huniv.
  remember (hex_strings 64) as U eqn:HU. clear HU.
  set (key := fun f => threadKey SHA256.hex [] "" "" "(no subject)" f) in *.
  set (senders := map a_string (seq 0 (S (List.length U)))).
  assert (Hnd : NoDup senders).
  { apply NoDup_map_separating; [|apply seq_NoDup].
    intros x y Hxy E. apply Hxy.
    rewrite <- (a_string_length x), <- (a_string_length y), E. reflexivity. }
  assert (Hkeys : NoDup (map key senders))
    by (apply NoDup_map_separating; [exact Hsep | exact Hnd]).
  assert (Hincl : incl (map key senders) U).
  { intros k Hk. apply in_map_iff in Hk as [f [<- _]].
    unfold key, threadKey. apply Huniv. }
  pose proof (NoDup_incl_length Hkeys Hincl) as Hlen.
  unfold senders in Hlen. rewrite !length_map, length_seq in Hlen. lia.
Qed.

(** * Further properties of the handlers *)

(** ** Runs of the sync route, written out *)

Lemma sync_locked_run (env : Env) (cursor backfillDays limit : option Z) :
  sync_locked env cursor backfillDays limit =
  let crit := sync_criteria env cursor backfillDays in
  match imap_search env crit with
  | Throw e => ([EImapSearch crit], Throw e)
  | Ok found =>
      let ids := bound_batch found (nullish limit 50) in
      let l := fetch_loop env (fst (imap_fetch env ids))
                 (if cursor_truthy cursor then cursor_number cursor else 0) [] in
      ([EImapSearch crit; EImapFetch ids] ++ fst l,
       match snd l with
       | Throw e => Throw e
       | Ok r =>
           match snd (imap_fetch env ids) with
           | Some e => Throw e
           | None => Ok (json (BSync (fst r) (snd r)))
           end
       end)
  end.
Proof.
  unfold sync_locked, bind, call, ret. cbv zeta.
  destruct (imap_search env _) as [found|e]; [|reflexivity].
  destruct (fetch_loop env _ _ _) as [tr [r|e]]; simpl; [|reflexivity].
  destruct (snd (imap_fetch env _)); simpl; rewrite ?app_nil_r; reflexivity.
Qed.

Lemma sync_handler_run (env : Env) (b : SyncBody) :
  falsy (yb_email b) || falsy (yb_password b) = false ->
  sync_handler env b =
  let client := imap_session (yb_advanced b) (or_else (yb_email b) "")
                             (or_else (yb_password b) "") in
  match imap_connect env client with
  | Throw e =>
      ([EImapConnect client; EImapLogout], Ok (status_json 500 (BError e)))
  | Ok _ =>
      match imap_getMailboxLock env with
      | Throw e =>
          ([EImapConnect client; EImapLock; EImapLogout],
           Ok (status_json 500 (BError e)))
      | Ok _ =>
          let r := sync_locked env (yb_cursor b) (yb_backfillDays b) (yb_limit b) in
          ([EImapConnect client; EImapLock] ++ fst r ++ [EImapRelease; EImapLogout],
           Ok (match snd r with
               | Ok resp => resp
               | Throw e => status_json 500 (BError e)
               end))
      end
  end.
Proof.
  intros Hv. unfold sync_handler. rewrite Hv.
  unfold imap_session, cfg. cbn [imapHost imapPort imapSecure].
  unfold finally, try_catch, bind, call, ret. cbv zeta.
  destruct (imap_connect env _); [|reflexivity].
  destruct (imap_getMailboxLock env); [|reflexivity].
  destruct (sync_locked env _ _ _) as [tr [resp|e]]; simpl;
    rewrite <- ?app_assoc; simpl; rewrite ?app_nil_r; reflexivity.
Qed.

Lemma fetch_loop_trace (env : Env) (ys : list FetchMsg) :
  forall mx acc,
    exists n,
      fst (fetch_loop env ys mx acc)
      = map (fun m => EParse (source m)) (firstn n ys) /\
      (forall r, snd (fetch_loop env ys mx acc) = Ok r ->
                 firstn n ys = ys).
Proof.
  induction ys as [|msg ys IH]; simpl; intros mx acc.
  - exists 0%nat. split; reflexivity.
  - unfold bind, call.
    destruct (simpleParser env (source msg)) as [parsed|e].
    + destruct (IH (Z.max mx (uid msg)) (acc ++ [normalize env msg parsed]))
        as [n [Ht Hr]].
      destruct (fetch_loop env ys _ _) as [tr r]. simpl in *.
      exists (S n). simpl. split; [now rewrite Ht|].
      intros r' E. now rewrite (Hr r' E).
    + exists 1%nat. simpl. split; [reflexivity | discriminate].
Qed.

Lemma testImap_run (env : Env) (user pass : string) (adv : option Overrides) :
  testImap env user pass adv =
  let client := imap_session adv user pass in
  match imap_connect env client with
  | Throw e =>
      ([EImapConnect client; EImapLogout], Ok (mkImapCheck false (Some e)))
  | Ok _ =>
      match imap_getMailboxLock env with
      | Throw e =>
          ([EImapConnect client; EImapLock; EImapLogout],
           Ok (mkImapCheck false (Some e)))
      | Ok _ =>
          ([EImapConnect client; EImapLock; EImapRelease; EImapLogout],
           Ok (mkImapCheck true None))
      end
  end.
Proof.
  unfold testImap, imap_session, cfg. cbn [imapHost imapPort imapSecure].
  unfold finally, try_catch, bind, call, ret. cbv zeta.
  destruct (imap_connect env _); [|reflexivity].
  destruct (imap_getMailboxLock env); reflexivity.
Qed.

Lemma imap_sessions_app (tr1 tr2 : list Event) :
  imap_sessions (tr1 ++ tr2) = imap_sessions tr1 ++ imap_sessions tr2.
Proof.
  induction tr1 as [|ev tr1 IH]; simpl; [reflexivity|].
  destruct ev; simpl; rewrite ?IH; reflexivity.
Qed.

Lemma imap_sessions_parse (ms : list FetchMsg) :
  imap_sessions (map (fun m => EParse (source m)) ms) = [].
Proof. induction ms; simpl; auto. Qed.

Lemma sync_locked_sessions (env : Env) (cursor backfillDays limit : option Z) :
  imap_sessions (fst (sync_locked env cursor backfillDays limit)) = [].
Proof.
  rewrite sync_locked_run. cbv zeta.
  destruct (imap_search env _) as [found|e]; [|reflexivity].
  destruct (fetch_loop_trace env
              (fst (imap_fetch env (bound_batch found (nullish limit 50))))
              (if cursor_truthy cursor then cursor_number cursor else 0) [])
    as [n [Ht _]].
  simpl. rewrite Ht. apply imap_sessions_parse.
Qed.

Lemma safeEqual_key (API_KEY : string) (key : option string) :
  API_KEY <> "" ->
  (safeEqual key (Some API_KEY) = true <-> key = Some API_KEY).
Proof.
  intros Hne. unfold safeEqual.
  destruct API_KEY as [|a k]; [contradiction|].
  change (or_else (Some (String a k)) "") with (String a k).
  destruct key as [[|c s]|].
  - change (or_else (Some "") "") with "". split; discriminate.
  - change (or_else (Some (String c s)) "") with (String c s).
    rewrite String.eqb_eq. split; congruence.
  - change (or_else None "") with "". split; discriminate.
Qed.

(** X1.  With a non-empty configured key (the process exits at start
    otherwise), each of the three routes runs its handler exactly when the
    [x-api-key] header equals the key; a missing header or any other value
    is answered 401 "Unauthorized" without calling any collaborator. *)
Theorem api_key_gate (API_KEY : string) (env : Env) (key : option string)
    (tb : TestBody) (yb : SyncBody) (sb : SendBody) :
  API_KEY <> "" ->
  (key = Some API_KEY ->
   route_test API_KEY env key tb = test_handler env tb /\
   route_sync API_KEY env key yb = sync_handler env yb /\
   route_send API_KEY env key sb = send_handler env sb) /\
  (key <> Some API_KEY ->
   route_test API_KEY env key tb
   = ([], Ok (mkResponse 401 (BError "Unauthorized"))) /\
   route_sync API_KEY env key yb
   = ([], Ok (mkResponse 401 (BError "Unauthorized"))) /\
   route_send API_KEY env key sb
   = ([], Ok (mkResponse 401 (BError "Unauthorized")))).
Proof.
  intros Hne. pose proof (safeEqual_key API_KEY key Hne) as Hk.
  unfold route_test, route_sync, route_send, requireApiKey.
  destruct (safeEqual key (Some API_KEY)); simpl; split; intros H.
  - auto.
  - exfalso. apply H. now apply Hk.
  - apply Hk in H. discriminate.
  - auto.
Qed.

Lemma api_key_gate_witness :
  route_sync "k3y" env5 None (sync_req None None)
  = ([], Ok (mkResponse 401 (BError "Unauthorized"))) /\
  route_sync "k3y" env5 (Some "k3y") (sync_req None None)
  = sync_handler env5 (sync_req None None).
Proof.
  assert (Hne : "k3y" <> "") by discriminate.
  split.
  - apply (proj2 (api_key_gate "k3y" env5 None test_req (sync_req None None)
                    send_req Hne)).
    discriminate.
  - apply (proj1 (api_key_gate "k3y" env5 (Some "k3y") test_req
                    (sync_req None None) send_req Hne)).
    reflexivity.
Defined.

(** X2.  The inbound side has no failover and a fixed host: a [/sync] or
    [/test] request with credentials tries exactly one IMAP connection, to
    mail.privateemail.com with the caller's e-mail and password, on the
    port and security flag of [advanced] (993 and true by default); a
    request without credentials tries none. *)
Theorem imap_single_fixed_host (env : Env) (yb : SyncBody) (tb : TestBody) :
  imap_sessions (fst (sync_handler env yb))
  = (if falsy (yb_email yb) || falsy (yb_password yb) then []
     else [imap_session (yb_advanced yb) (or_else (yb_email yb) "")
                        (or_else (yb_password yb) "")]) /\
  imap_sessions (fst (test_handler env tb))
  = (if falsy (tb_email tb) || falsy (tb_password tb) then []
     else [imap_session (tb_advanced tb) (or_else (tb_email tb) "")
                        (or_else (tb_password tb) "")]).
Proof.
  split.
  - destruct (falsy (yb_email yb) || falsy (yb_password yb)) eqn:Hv.
    + unfold sync_handler. now rewrite Hv.
    + rewrite (sync_handler_run env yb Hv). cbv zeta.
      destruct (imap_connect env _); [|reflexivity].
      destruct (imap_getMailboxLock env); [|reflexivity].
      cbn [fst]. change (?a :: EImapLock :: ?t) with ([a; EImapLock] ++ t).
      rewrite !imap_sessions_app, sync_locked_sessions. reflexivity.
  - unfold test_handler.
    destruct (falsy (tb_email tb) || falsy (tb_password tb)); [reflexivity|].
    rewrite testImap_run, !testSmtp_eq. cbv zeta. unfold bind, ret.
    destruct (imap_connect env _); [destruct (imap_getMailboxLock env)|];
      destruct (smtp_verify env _) as [[]|e1]; simpl;
      try reflexivity;
      destruct (smtp_verify env _) as [[]|e2]; reflexivity.
Qed.

(** X3.  A verify call with credentials never fails as a whole and never
    short-circuits: it answers 200 with both sub-results, the outbound
    check starts at the primary host whatever the inbound check gave, the
    inbound result is positive exactly when the session connected and
    locked the inbox, the outbound result exactly when one of the two SMTP
    hosts passed, and [ok] is their conjunction. *)
Theorem verify_reports_both (env : Env) (b : TestBody) :
  falsy (tb_email b) || falsy (tb_password b) = false ->
  let user := or_else (tb_email b) "" in
  let pass := or_else (tb_password b) "" in
  exists tr ic sc,
    test_handler env b
    = (tr, Ok (mkResponse 200 (BTest (ic_ok ic && sc_ok sc) ic sc))) /\
    hd_error (smtp_hosts tr) = Some "mail.privateemail.com" /\
    (ic_ok ic = true <->
     imap_connect env (imap_session (tb_advanced b) user pass) = Ok tt /\
     imap_getMailboxLock env = Ok tt) /\
    (sc_ok sc = true <->
     smtp_verify env (smtp_session (tb_advanced b) user pass
                        "mail.privateemail.com") = Ok tt \/
     smtp_verify env (smtp_session (tb_advanced b) user pass
                        "smtp.privateemail.com") = Ok tt).
Proof.
  intros Hv user pass. unfold test_handler. rewrite Hv. fold user pass.
  rewrite testImap_run, !testSmtp_eq. cbv zeta. unfold bind, ret, json.
  simpl nullish.
  destruct (imap_connect env _) as [[]|ec];
    [destruct (imap_getMailboxLock env) as [[]|el]|];
    destruct (smtp_verify env (smtp_session _ _ _ "mail.privateemail.com"))
      as [[]|e1];
    simpl;
    try destruct (smtp_verify env (smtp_session _ _ _ "smtp.privateemail.com"))
      as [[]|e2];
    simpl;
    match goal with
    | |- exists tr ic sc, (?T, Ok (mkResponse _ (BTest _ ?IC ?SC))) = _ /\ _ =>
        exists T, IC, SC
    end;
    (split; [reflexivity|]); (split; [reflexivity|]); simpl;
    intuition (try discriminate; auto).
Qed.

Lemma verify_reports_both_witness :
  exists tr ic sc,
    test_handler env_nolock test_req
    = (tr, Ok (mkResponse 200 (BTest (ic_ok ic && sc_ok sc) ic sc))) /\
    hd_error (smtp_hosts tr) = Some "mail.privateemail.com" /\
    ic_ok ic = false /\ sc_ok sc = true.
Proof.
  destruct (verify_reports_both env_nolock test_req eq_refl)
    as [tr [ic [sc [H [Hh [Hi Hs]]]]]].
  exists tr, ic, sc. split; [exact H|]. split; [exact Hh|]. split.
  - destruct (ic_ok ic); [|reflexivity].
    destruct (proj1 Hi eq_refl) as [_ Hl]. discriminate Hl.
  - apply Hs. left. reflexivity.
Defined.

Lemma sync_locked_quiet (env : Env) (cursor backfillDays limit : option Z) :
  filter is_release (fst (sync_locked env cursor backfillDays limit)) = [] /\
  filter is_logout (fst (sync_locked env cursor backfillDays limit)) = [].
Proof.
  rewrite sync_locked_run. cbv zeta.
  destruct (imap_search env _) as [found|e]; [|split; reflexivity].
  destruct (fetch_loop_trace env
              (fst (imap_fetch env (bound_batch found (nullish limit 50))))
              (if cursor_truthy cursor then cursor_number cursor else 0) [])
    as [n [Ht _]].
  simpl. rewrite Ht.
  generalize (firstn n (fst (imap_fetch env (bound_batch found (nullish limit 50))))).
  intros ms. induction ms; simpl; auto.
Qed.

(** X4.  Clean-up on every exit path of a sync with credentials: the run
    ends with the one logout it performs, whatever failed before, and the
    inbox lock is released exactly once if it was acquired and never if it
    was not. *)
Theorem sync_session_cleanup (env : Env) (b : SyncBody) :
  falsy (yb_email b) || falsy (yb_password b) = false ->
  let client := imap_session (yb_advanced b) (or_else (yb_email b) "")
                             (or_else (yb_password b) "") in
  (exists tr',
     fst (sync_handler env b) = tr' ++ [EImapLogout] /\
     filter is_logout tr' = []) /\
  List.length (filter is_release (fst (sync_handler env b)))
  = match imap_connect env client, imap_getMailboxLock env with
    | Ok _, Ok _ => 1%nat
    | _, _ => 0%nat
    end.
Proof.
  intros Hv client. rewrite (sync_handler_run env b Hv). cbv zeta. fold client.
  destruct (imap_connect env client).
  - destruct (imap_getMailboxLock env).
    + destruct (sync_locked_quiet env (yb_cursor b) (yb_backfillDays b) (yb_limit b))
        as [Hr Hl].
      cbn [fst]. split.
      * exists ([EImapConnect client; EImapLock]
                ++ fst (sync_locked env (yb_cursor b) (yb_backfillDays b) (yb_limit b))
                ++ [EImapRelease]).
        split.
        -- rewrite <- !app_assoc. reflexivity.
        -- rewrite !filter_app, Hl. reflexivity.
      * rewrite !filter_app, Hr. reflexivity.
    + split; [|reflexivity].
      exists [EImapConnect client; EImapLock]. split; reflexivity.
  - split; [|reflexivity].
    exists [EImapConnect client]. split; reflexivity.
Qed.

Lemma sync_session_cleanup_witness :
  (exists tr',
     fst (sync_handler env_badparse (sync_req None None)) = tr' ++ [EImapLogout] /\
     filter is_logout tr' = []) /\
  List.length (filter is_release (fst (sync_handler env_badparse (sync_req None None))))
  = 1%nat.
Proof.
  exact (sync_session_cleanup env_badparse (sync_req None None) eq_refl).
Defined.

(** X5.  Failures before the fetch: with credentials, a refused connection
    is answered 500 with its error after a logout and nothing else; a lock
    that cannot be taken likewise, with no release; a failing search is
    answered 500 with its error after the lock was released. *)
Theorem sync_early_failures (env : Env) (b : SyncBody) :
  falsy (yb_email b) || falsy (yb_password b) = false ->
  let client := imap_session (yb_advanced b) (or_else (yb_email b) "")
                             (or_else (yb_password b) "") in
  let crit := sync_criteria env (yb_cursor b) (yb_backfillDays b) in
  (forall e,
     imap_connect env client = Throw e ->
     sync_handler env b
     = ([EImapConnect client; EImapLogout], Ok (mkResponse 500 (BError e)))) /\
  (forall e,
     imap_connect env client = Ok tt ->
     imap_getMailboxLock env = Throw e ->
     sync_handler env b
     = ([EImapConnect client; EImapLock; EImapLogout],
        Ok (mkResponse 500 (BError e)))) /\
  (forall e,
     imap_connect env client = Ok tt ->
     imap_getMailboxLock env = Ok tt ->
     imap_search env crit = Throw e ->
     sync_handler env b
     = ([EImapConnect client; EImapLock; EImapSearch crit; EImapRelease;
         EImapLogout],
        Ok (mkResponse 500 (BError e)))).
Proof.
  intros Hv client crit. rewrite (sync_handler_run env b Hv). cbv zeta.
  fold client. split; [|split].
  - intros e ->. reflexivity.
  - intros e -> ->. reflexivity.
  - intros e -> -> Hs. rewrite sync_locked_run. cbv zeta. fold crit.
    rewrite Hs. reflexivity.
Qed.

Lemma sync_early_failures_witness :
  sync_handler env_refused (sync_req None None)
  = ([EImapConnect (imap_session None "bob@example.com" "secret"); EImapLogout],
     Ok (mkResponse 500 (BError "connection refused"))) /\
  sync_handler env_nolock (sync_req None None)
  = ([EImapConnect (imap_session None "bob@example.com" "secret"); EImapLock;
      EImapLogout],
     Ok (mkResponse 500 (BError "mailbox busy"))) /\
  sync_handler env_nosearch (sync_req None None)
  = ([EImapConnect (imap_session None "bob@example.com" "secret"); EImapLock;
      EImapSearch (SearchSince (86 * DAY)); EImapRelease; EImapLogout],
     Ok (mkResponse 500 (BError "search failed"))).
Proof.
  split; [|split].
  - exact (proj1 (sync_early_failures env_refused (sync_req None None) eq_refl)
             "connection refused" eq_refl).
  - exact (proj1 (proj2 (sync_early_failures env_nolock (sync_req None None) eq_refl))
             "mailbox busy" eq_refl eq_refl).
  - exact (proj2 (proj2 (sync_early_failures env_nosearch (sync_req None None) eq_refl))
             "search failed" eq_refl eq_refl eq_refl).
Defined.

(** ** All or nothing *)

Lemma fetch_loop_parse_failure (env : Env) (ys : list FetchMsg) :
  forall mx acc msg e,
    In msg ys -> simpleParser env (source msg) = Throw e ->
    exists e', snd (fetch_loop env ys mx acc) = Throw e'.
Proof.
  induction ys as [|y ys IH]; simpl; intros mx acc msg e Hin Hp; [contradiction|].
  unfold bind, call.
  destruct (simpleParser env (source y)) as [parsed|e0] eqn:Hy.
  - destruct Hin as [->|Hin]; [congruence|].
    destruct (IH (Z.max mx (uid y)) (acc ++ [normalize env y parsed]) msg e Hin Hp)
      as [e' He'].
    destruct (fetch_loop env ys _ _) as [tr r]. simpl in *. exists e'. exact He'.
  - exists e0. reflexivity.
Qed.

(** X6.  No partial result: with credentials, if the parser throws on any
    message the generator yielded, or the generator itself throws, the sync
    is answered 500 with an error body; none of the messages that did parse
    is returned. *)
Theorem sync_all_or_nothing (env : Env) (b : SyncBody) :
  falsy (yb_email b) || falsy (yb_password b) = false ->
  (exists msg e,
     In msg (sync_batch env b) /\ simpleParser env (source msg) = Throw e) \/
  (exists e,
     snd (imap_fetch env (bound_batch (sync_candidates env b)
                            (nullish (yb_limit b) 50))) = Some e) ->
  exists e', snd (sync_handler env b) = Ok (mkResponse 500 (BError e')).
Proof.
  intros Hv Hfail. rewrite (sync_handler_run env b Hv). cbv zeta.
  destruct (imap_connect env _) as [[]|ec]; [|now exists ec].
  destruct (imap_getMailboxLock env) as [[]|el]; [|now exists el].
  cbn [snd]. rewrite sync_locked_run. cbv zeta.
  unfold sync_batch, sync_candidates in Hfail.
  destruct (imap_search env _) as [found|es]; [|now exists es].
  cbn [snd].
  set (ids := bound_batch found (nullish (yb_limit b) 50)) in *.
  destruct Hfail as [[msg [e [Hin Hp]]]|[e He]].
  - destruct (fetch_loop_parse_failure env (fst (imap_fetch env ids))
                (if cursor_truthy (yb_cursor b) then cursor_number (yb_cursor b) else 0)
                [] msg e Hin Hp) as [e' He'].
    rewrite He'. now exists e'.
  - destruct (snd (fetch_loop env _ _ _)) as [r|e']; [|now exists e'].
    rewrite He. now exists e.
Qed.

Lemma sync_all_or_nothing_witness :
  (exists e', snd (sync_handler env_badparse (sync_req None None))
              = Ok (mkResponse 500 (BError e'))) /\
  (exists e', snd (sync_handler env_badfetch (sync_req None None))
              = Ok (mkResponse 500 (BError e'))).
Proof.
  split.
  - apply (sync_all_or_nothing env_badparse (sync_req None None) eq_refl).
    left. exists (mkFetchMsg 4 None None None "four"), "bad MIME".
    split; [vm_compute; tauto | reflexivity].
  - apply (sync_all_or_nothing env_badfetch (sync_req None None) eq_refl).
    right. exists "connection lost". reflexivity.
Defined.

Lemma sync_ok_credentials {env : Env} {b : SyncBody} {tr cur msgs} :
  sync_handler env b = (tr, Ok (mkResponse 200 (BSync cur msgs))) ->
  falsy (yb_email b) || falsy (yb_password b) = false.
Proof.
  unfold sync_handler.
  destruct (falsy (yb_email b) || falsy (yb_password b)); [discriminate | reflexivity].
Qed.

(** X7.  The events of a successful sync, in full: one connection, the
    lock, one search, one fetch of the bounded identifiers, one parse per
    yielded message in the order yielded, the release, the logout. *)
Theorem sync_success_trace (env : Env) (b : SyncBody) tr cur msgs :
  sync_handler env b = (tr, Ok (mkResponse 200 (BSync cur msgs))) ->
  tr = [EImapConnect (imap_session (yb_advanced b) (or_else (yb_email b) "")
                                   (or_else (yb_password b) ""));
        EImapLock;
        EImapSearch (sync_criteria env (yb_cursor b) (yb_backfillDays b));
        EImapFetch (bound_batch (sync_candidates env b) (nullish (yb_limit b) 50))]
       ++ map (fun m => EParse (source m)) (sync_batch env b)
       ++ [EImapRelease; EImapLogout].
Proof.
  intros H. pose proof (sync_ok_credentials H) as Hv.
  rewrite (sync_handler_run env b Hv) in H. cbv zeta in H.
  destruct (imap_connect env _); [|discriminate].
  destruct (imap_getMailboxLock env); [|discriminate].
  rewrite sync_locked_run in H. cbv zeta in H.
  unfold sync_batch, sync_candidates.
  destruct (imap_search env _) as [found|e]; [|discriminate].
  cbn [fst snd] in H.
  destruct (fetch_loop_trace env
              (fst (imap_fetch env (bound_batch found (nullish (yb_limit b) 50))))
              (if cursor_truthy (yb_cursor b) then cursor_number (yb_cursor b) else 0)
              []) as [n [Ht Hall]].
  destruct (fetch_loop env _ _ _) as [trl [r|e]]; [|discriminate].
  cbn [fst snd] in *. rewrite (Hall r eq_refl) in Ht. subst trl.
  injection H as <- _. reflexivity.
Qed.

Lemma sync_success_trace_witness :
  fst (sync_handler env5 (sync_req (Some 3) None))
  = [EImapConnect (imap_session None "bob@example.com" "secret");
     EImapLock; EImapSearch (SearchUid 4); EImapFetch [4; 5];
     EParse "four"; EParse ("five   is" ++ String (ascii_of_nat 10) "  here ");
     EImapRelease; EImapLogout].
Proof.
  apply (sync_success_trace env5 (sync_req (Some 3) None)
           (fst (sync_handler env5 (sync_req (Some 3) None))) 5
           (response_messages (sync_handler env5 (sync_req (Some 3) None)))).
  vm_compute. reflexivity.
Defined.

(** ** The batch bound and the cursor *)

Lemma bound_batch_split (uids : list Z) (limit : Z) :
  List.length (bound_batch uids limit) = kept_count (List.length uids) limit /\
  exists dropped,
    Permutation uids (dropped ++ bound_batch uids limit) /\
    forall d k, In d dropped -> In k (bound_batch uids limit) -> d <= k.
Proof.
  set (d := js_sort cmp_desc uids).
  assert (Hperm : Permutation uids d) by apply js_sort_perm.
  assert (Hlen : List.length d = List.length uids)
    by (symmetry; now apply Permutation_length).
  set (n := if limit <? 0
            then Z.to_nat (Z.max 0 (Z.of_nat (List.length d) + limit))
            else Z.to_nat limit).
  assert (Hslice : js_slice0 d limit = firstn n d).
  { unfold js_slice0, n. destruct (limit <? 0); reflexivity. }
  assert (Hkp : Permutation (firstn n d) (bound_batch uids limit)).
  { unfold bound_batch. fold d. rewrite Hslice. apply js_sort_perm. }
  split.
  - rewrite <- (Permutation_length Hkp), length_firstn, Hlen.
    unfold kept_count, n. rewrite Hlen.
    destruct (Z.ltb_spec limit 0); lia.
  - exists (skipn n d). split.
    + eapply perm_trans; [exact Hperm|].
      rewrite <- (firstn_skipn n d) at 1.
      eapply perm_trans; [apply Permutation_app_comm|].
      now apply Permutation_app_head.
    + intros x k Hx Hk.
      apply (Permutation_in _ (Permutation_sym Hkp)) in Hk.
      pose proof (js_sort_desc_sorted uids) as Hs. fold d in Hs.
      rewrite <- (firstn_skipn n d) in Hs.
      pose proof (sorted_app_cross Hs k x Hk Hx). lia.
Qed.

(** X8.  The bound of lines 124 to 126, for every [limit]: the result is
    ascending and holds the newest identifiers, as many as [slice] keeps
    (all of them if [limit] is at least their number, none if it is 0, all
    but the [-limit] oldest if it is negative), and no dropped identifier
    is above a retained one. *)
Theorem bound_batch_keeps_newest (uids : list Z) (limit : Z) :
  StronglySorted Z.le (bound_batch uids limit) /\
  List.length (bound_batch uids limit) = kept_count (List.length uids) limit /\
  (exists dropped,
     Permutation uids (dropped ++ bound_batch uids limit) /\
     forall d k, In d dropped -> In k (bound_batch uids limit) -> d <= k) /\
  (Z.of_nat (List.length uids) <= limit -> Permutation uids (bound_batch uids limit)) /\
  (limit = 0 -> bound_batch uids limit = []) /\
  (limit < 0 ->
   List.length (bound_batch uids limit)
   = (List.length uids - Z.to_nat (- limit))%nat).
Proof.
  destruct (bound_batch_split uids limit) as [Hlen [dropped [Hperm Hle]]].
  split; [apply bound_batch_sorted|]. split; [exact Hlen|].
  split; [now exists dropped|]. split; [|split].
  - intros Hbig.
    assert (Hd : List.length dropped = 0%nat).
    { pose proof (Permutation_length Hperm) as Hl. rewrite length_app, Hlen in Hl.
      unfold kept_count in Hl. destruct (Z.ltb_spec limit 0); lia. }
    destruct dropped; [exact Hperm | discriminate].
  - intros ->. destruct (bound_batch uids 0); [reflexivity|].
    unfold kept_count in Hlen. simpl in Hlen. discriminate.
  - intros Hneg. rewrite Hlen. unfold kept_count.
    destruct (Z.ltb_spec limit 0); lia.
Qed.

Lemma bound_batch_keeps_newest_witness :
  bound_batch [3; 1; 5; 2; 4] (-2) = [3; 4; 5] /\
  List.length (bound_batch [3; 1; 5; 2; 4] (-2)) = 3%nat /\
  Permutation [3; 1; 5; 2; 4] (bound_batch [3; 1; 5; 2; 4] 50).
Proof.
  split; [reflexivity|]. split.
  - apply (proj2 (proj2 (proj2 (proj2 (proj2
             (bound_batch_keeps_newest [3; 1; 5; 2; 4] (-2))))))).
    reflexivity.
  - apply (proj1 (proj2 (proj2 (proj2
             (bound_batch_keeps_newest [3; 1; 5; 2; 4] 50))))).
    vm_compute. discriminate.
Defined.

(** X9.  The cursor never moves back: a successful sync returns a cursor
    that is at least the cursor it was given (at least 0 when none was
    given) and at least the UID of every message it fetched.  This needs no
    assumption on the collaborators. *)
Theorem sync_cursor_monotone (env : Env) (b : SyncBody) tr cur msgs :
  sync_handler env b = (tr, Ok (mkResponse 200 (BSync cur msgs))) ->
  nullish (yb_cursor b) 0 <= cur /\
  Forall (fun u => u <= cur) (map uid (sync_batch env b)).
Proof.
  intros H. destruct (sync_cursor_fold H) as [Hc _].
  destruct (fold_max_ge (map uid (sync_batch env b)) (sync_start b)) as [H1 H2].
  rewrite <- Hc in H1, H2. rewrite <- sync_start_cursor. now split.
Qed.

Lemma sync_cursor_monotone_witness :
  nullish (yb_cursor (sync_req (Some 9) None)) 0 <= 9 /\
  Forall (fun u => u <= 9) (map uid (sync_batch env5 (sync_req (Some 9) None))).
Proof.
  apply (sync_cursor_monotone env5 (sync_req (Some 9) None)
           (fst (sync_handler env5 (sync_req (Some 9) None))) 9
           (response_messages (sync_handler env5 (sync_req (Some 9) None)))).
  vm_compute. reflexivity.
Defined.

(** X10.  A sync with a cursor either advances or fetches the newest
    message again.  If the session fetches in request order and its search
    reads the UID range as RFC 3501 does, then either every fetched UID is
    above the cursor, and the returned cursor is above it as soon as one
    message was fetched; or the mailbox holds nothing above the cursor,
    every fetched message is the one with the highest UID, and the cursor
    comes back unchanged. *)
Theorem sync_advances_or_refetches (env : Env) (uid_of : Z -> Z) (top : Z)
    (b : SyncBody) tr cur msgs (c : Z) :
  fetch_in_order env uid_of -> search_uid_range env uid_of top ->
  sync_handler env b = (tr, Ok (mkResponse 200 (BSync cur msgs))) ->
  yb_cursor b = Some c -> c <> 0 ->
  (Forall (fun u => c < u) (map uid (sync_batch env b)) /\
   (sync_batch env b <> [] -> c < cur)) \/
  (Forall (fun u => u = top) (map uid (sync_batch env b)) /\
   top <= c /\ cur = c).
Proof.
  intros Hf [Htop Hrange] H Hc Hnz.
  destruct (sync_cursor_fold H) as [Hcur _].
  pose proof (sync_candidates_found H) as Hs.
  assert (Hstart : sync_start b = c) by (rewrite sync_start_cursor, Hc; reflexivity).
  rewrite Hstart in Hcur.
  assert (Hcrit : sync_criteria env (yb_cursor b) (yb_backfillDays b)
                  = SearchUid (c + 1)).
  { unfold sync_criteria. rewrite Hc. simpl.
    destruct (Z.eqb_spec c 0); [contradiction | reflexivity]. }
  rewrite Hcrit in Hs.
  assert (Hall : forall u, In u (map uid (sync_batch env b)) ->
                           c + 1 <= u \/ (u = top /\ top < c + 1)).
  { intros u Hu. rewrite (sync_batch_uids Hf H) in Hu.
    apply in_map_iff in Hu as [id [<- Hid]]. apply bound_batch_incl in Hid.
    exact (Hrange _ _ id Hs Hid). }
  assert (Hle : forall u, In u (map uid (sync_batch env b)) -> u <= top).
  { intros u Hu. rewrite (sync_batch_uids Hf H) in Hu.
    apply in_map_iff in Hu as [id [<- Hid]]. apply bound_batch_incl in Hid.
    exact (Htop _ _ id Hs Hid). }
  destruct (fold_max_ge (map uid (sync_batch env b)) c) as [Hge1 Hge2].
  pose proof (fold_max_in (map uid (sync_batch env b)) c) as Hin.
  rewrite <- Hcur in Hge1, Hge2, Hin. rewrite Forall_forall in Hge2.
  destruct (Z.le_gt_cases top c) as [Htc|Htc].
  - right. split; [|split; [exact Htc|]].
    + apply Forall_forall. intros u Hu.
      destruct (Hall u Hu) as [Hbig|[E _]]; [|exact E].
      specialize (Hle u Hu). lia.
    + destruct Hin as [E|Hin]; [exact E|]. specialize (Hle cur Hin). lia.
  - left. split.
    + apply Forall_forall. intros u Hu.
      destruct (Hall u Hu) as [Hbig|[_ Hlt]]; lia.
    + intros NE. destruct (map uid (sync_batch env b)) as [|u us] eqn:E.
      { destruct (sync_batch env b); [now elim NE | discriminate]. }
      assert (Hu : In u (u :: us)) by now left.
      specialize (Hge2 u Hu). destruct (Hall u Hu) as [Hbig|[_ Hlt]]; lia.
Qed.

(** With the cursor 412 the five-message mailbox gives the UIDs 518 and 620
    and the cursor 620; with the cursor 620 it gives the message 620 again
    and the cursor 620. *)
Lemma sync_advances_or_refetches_witness :
  (Forall (fun u => 412 < u) (map uid (sync_batch env_gap (sync_req (Some 412) None))) /\
   map uid (sync_batch env_gap (sync_req (Some 412) None)) = [518; 620]) /\
  (Forall (fun u => u = 620) (map uid (sync_batch env_gap (sync_req (Some 620) None))) /\
   map uid (sync_batch env_gap (sync_req (Some 620) None)) = [620]).
Proof.
  split.
  - split; [|reflexivity].
    destruct (sync_advances_or_refetches env_gap (Mailbox.uid_at box_gap)
                (Mailbox.top box_gap) (sync_req (Some 412) None)
                (fst (sync_handler env_gap (sync_req (Some 412) None))) 620
                (response_messages (sync_handler env_gap (sync_req (Some 412) None)))
                412 env_gap_fetch env_gap_range) as [[H _]|[_ [H _]]].
    + vm_compute. reflexivity.
    + reflexivity.
    + discriminate.
    + exact H.
    + vm_compute in H. exfalso. now apply H.
  - split; [|reflexivity].
    destruct (sync_advances_or_refetches env_gap (Mailbox.uid_at box_gap)
                (Mailbox.top box_gap) (sync_req (Some 620) None)
                (fst (sync_handler env_gap (sync_req (Some 620) None))) 620
                (response_messages (sync_handler env_gap (sync_req (Some 620) None)))
                620 env_gap_fetch env_gap_range) as [[_ H]|[H _]].
    + vm_compute. reflexivity.
    + reflexivity.
    + discriminate.
    + exfalso. assert (620 < 620) by (apply H; vm_compute; discriminate). lia.
    + exact H.
Defined.

(** X11.  Between a successful sync that fetched something and a sync
    given the cursor it returned, the only UID that can come twice is that
    cursor: if the mailbox of the second sync still reaches up to the
    cursor, none of the first sync's candidates with another UID is fetched
    again, neither one it returned nor one it dropped for [limit].  What
    the bound cuts is therefore not delivered later. *)
Theorem sync_redelivers_only_cursor (env1 env2 : Env) (uid_of1 uid_of2 : Z -> Z)
    (top2 : Z) (b1 b2 : SyncBody) tr1 tr2 cur1 cur2 msgs1 msgs2 :
  fetch_in_order env1 uid_of1 -> uid_ascending env1 uid_of1 ->
  uid_positive env1 uid_of1 ->
  fetch_in_order env2 uid_of2 -> search_uid_range env2 uid_of2 top2 ->
  sync_handler env1 b1 = (tr1, Ok (mkResponse 200 (BSync cur1 msgs1))) ->
  sync_batch env1 b1 <> [] ->
  yb_cursor b2 = Some cur1 ->
  sync_handler env2 b2 = (tr2, Ok (mkResponse 200 (BSync cur2 msgs2))) ->
  cur1 <= top2 ->
  forall d,
    In d (map uid_of1 (sync_candidates env1 b1)) ->
    In d (map uid (sync_batch env2 b2)) ->
    d = cur1.
Proof.
  intros Hf1 Ha1 Hp1 Hf2 [_ Hrange2] H1 NE Hc H2 Htop d Hd In2.
  destruct (sync_cursor_fold H1) as [Hcur1 _].
  pose proof (sync_candidates_found H1) as Hs1.
  destruct (fold_max_ge (map uid (sync_batch env1 b1)) (sync_start b1)) as [_ Hle].
  rewrite <- Hcur1 in Hle. rewrite Forall_forall in Hle.
  pose proof (sync_batch_uids Hf1 H1) as Hk.
  destruct (bound_batch_split (sync_candidates env1 b1) (nullish (yb_limit b1) 50))
    as [_ [dropped [Hperm Hdk]]].
  (* a retained identifier [k]: its UID is positive and at most the cursor *)
  destruct (bound_batch (sync_candidates env1 b1) (nullish (yb_limit b1) 50))
    as [|k ks] eqn:Hks.
  { simpl in Hk. destruct (sync_batch env1 b1); [now elim NE | discriminate]. }
  assert (Hkin : In k (k :: ks)) by now left.
  assert (Hkc : In k (sync_candidates env1 b1)).
  { apply (Permutation_in _ (Permutation_sym Hperm)), in_or_app. now right. }
  assert (Hkle : uid_of1 k <= cur1).
  { apply Hle. rewrite Hk. now left. }
  pose proof (Hp1 _ _ k Hs1 Hkc) as Hkpos.
  (* the candidate [d] is at most the cursor *)
  assert (Hdle : d <= cur1).
  { apply in_map_iff in Hd as [i [<- Hi]].
    pose proof Hi as Hi'.
    apply (Permutation_in _ Hperm), in_app_or in Hi' as [Hi'|Hi'].
    - specialize (Hdk i k Hi' Hkin).
      pose proof (Ha1 _ _ i k Hs1 Hi Hkc Hdk). lia.
    - apply Hle. rewrite Hk. now apply in_map. }
  (* the second search starts above the cursor *)
  pose proof (sync_candidates_found H2) as Hs2.
  unfold sync_criteria in Hs2. rewrite Hc in Hs2. simpl in Hs2.
  destruct (Z.eqb_spec cur1 0) as [E|_]; [lia|]. simpl in Hs2.
  rewrite (sync_batch_uids Hf2 H2) in In2.
  apply in_map_iff in In2 as [id [<- Hid]]. apply bound_batch_incl in Hid.
  destruct (Hrange2 _ _ id Hs2 Hid) as [Hbig|[E Hlt]]; lia.
Qed.

(** The first sync keeps the UIDs 518 and 620 of five and returns the
    cursor 620; the next one fetches the message 620 again and none of 205,
    309, 412 and 518. *)
Lemma sync_redelivers_only_cursor_witness :
  map (Mailbox.uid_at box_gap) (sync_candidates env_gap (sync_req None (Some 2)))
  = [620; 518; 412; 309; 205] /\
  map uid (sync_batch env_gap (sync_req (Some 620) None)) = [620] /\
  forall d,
    In d (map (Mailbox.uid_at box_gap)
              (sync_candidates env_gap (sync_req None (Some 2)))) ->
    In d (map uid (sync_batch env_gap (sync_req (Some 620) None))) ->
    d = 620.
Proof.
  split; [reflexivity|]. split; [reflexivity|].
  apply (sync_redelivers_only_cursor env_gap env_gap
           (Mailbox.uid_at box_gap) (Mailbox.uid_at box_gap) (Mailbox.top box_gap)
           (sync_req None (Some 2)) (sync_req (Some 620) None)
           (fst (sync_handler env_gap (sync_req None (Some 2))))
           (fst (sync_handler env_gap (sync_req (Some 620) None))) 620 620
           (response_messages (sync_handler env_gap (sync_req None (Some 2))))
           (response_messages (sync_handler env_gap (sync_req (Some 620) None)))
           env_gap_fetch env_gap_ascending env_gap_positive
           env_gap_fetch env_gap_range).
  - vm_compute. reflexivity.
  - vm_compute. discriminate.
  - reflexivity.
  - vm_compute. reflexivity.
  - vm_compute. discriminate.
Defined.

(** ** More on the thread key *)

Lemma or_str_left (a d : string) : a <> "" -> or_str a d = a.
Proof. destruct a; [contradiction | reflexivity]. Qed.

Lemma or_str_empty (d : string) : or_str "" d = d.
Proof. reflexivity. Qed.

Lemma str_app_assoc (a b c : string) :
  ((a ++ b) ++ c)%string = (a ++ (b ++ c))%string.
Proof. induction a as [|x a IH]; simpl; [reflexivity | now rewrite IH]. Qed.

(** X12.  Precedence of the threading headers in the key.  When the joined
    references are not empty the key ignores in-reply-to, message id and
    subject; failing references, a non-empty in-reply-to hides message id
    and subject.  Hence a message that has only a message id [mid] and a
    reply of the same sender whose references are [[mid]], or whose
    in-reply-to is [mid] without references, get the same key. *)
Theorem threadKey_precedence (sha : string -> string) (f : string) :
  (forall refs irt mid subj irt' mid' subj',
     join_sp refs <> "" ->
     threadKey sha refs irt mid subj f = threadKey sha refs irt' mid' subj' f) /\
  (forall refs irt mid subj mid' subj',
     join_sp refs = "" -> irt <> "" ->
     threadKey sha refs irt mid subj f = threadKey sha refs irt mid' subj' f) /\
  (forall mid subj irt' mid' subj',
     mid <> "" ->
     threadKey sha [mid] irt' mid' subj' f = threadKey sha [] "" mid subj f) /\
  (forall mid subj mid' subj',
     mid <> "" ->
     threadKey sha [] mid mid' subj' f = threadKey sha [] "" mid subj f).
Proof.
  unfold threadKey, threadKeyInput. repeat split; intros.
  - now rewrite !(or_str_left (join_sp refs)).
  - rewrite H. simpl or_str. now rewrite !(or_str_left irt).
  - simpl. now rewrite !(or_str_left mid).
  - simpl. now rewrite !(or_str_left mid).
Qed.

Lemma threadKey_precedence_witness :
  threadKey SHA256.hex ["<root@x>"] "<root@x>" "<reply@x>" "Re: plan" "alice@example.com"
  = threadKey SHA256.hex [] "" "<root@x>" "plan" "alice@example.com".
Proof.
  apply (proj1 (proj2 (proj2 (threadKey_precedence SHA256.hex "alice@example.com")))).
  discriminate.
Defined.

(** X13.  The key does not separate every pair of header tuples, hash
    collisions apart: the parts are glued with one bar and the references
    with one space, so a subject-only message with subject [x|y] from [f]
    and one with subject [x] from [y|f] get the same key, and the
    references [[x; y]] give the key of the single reference [x y]. *)
Theorem threadKey_gluing (sha : string -> string) (x y f : string) :
  threadKey sha [] "" "" (x ++ "|" ++ y) f
  = threadKey sha [] "" "" x (y ++ "|" ++ f) /\
  (forall irt mid subj,
     threadKey sha [x; y] irt mid subj f
     = threadKey sha [(x ++ " " ++ y)%string] irt mid subj f).
Proof.
  unfold threadKey, threadKeyInput. split.
  - change (join_sp []) with "". rewrite !or_str_empty.
    f_equal. rewrite str_app_assoc. reflexivity.
  - intros. reflexivity.
Qed.

Lemma threadKey_gluing_example :
  threadKey SHA256.hex [] "" "" "a|b" "c@example.com"
  = threadKey SHA256.hex [] "" "" "a" "b|c@example.com".
Proof.
  exact (proj1 (threadKey_gluing SHA256.hex "a" "b" "c@example.com")).
Defined.

(** ** More on the normalised fields *)

Lemma only_space_collapse (s : string) :
  forall in_run, only_space_ws (collapse_from in_run s) = true.
Proof.
  induction s as [|c s IH]; intros in_run; [reflexivity|].
  simpl collapse_from. destruct (is_ws c) eqn:Ec.
  - destruct in_run; [apply IH|]. simpl. apply IH.
  - simpl. now rewrite Ec, IH.
Qed.

Lemma only_space_trim_start (s : string) :
  only_space_ws s = true -> only_space_ws (trim_start s) = true.
Proof.
  induction s as [|c s IH]; [reflexivity|]. intros H. simpl trim_start.
  destruct (is_ws c); [|exact H].
  simpl in H. apply andb_prop in H as [_ H]. auto.
Qed.

Lemma only_space_trim_end (s : string) :
  only_space_ws s = true -> only_space_ws (trim_end s) = true.
Proof.
  induction s as [|c s IH]; [reflexivity|]. intros H.
  simpl in H. apply andb_prop in H as [Hc H]. specialize (IH H).
  simpl trim_end. destruct (trim_end s) as [|d r].
  - destruct (is_ws c) eqn:Ec; [reflexivity|]. simpl. now rewrite Ec.
  - change (only_space_ws (String c (String d r)))
      with ((negb (is_ws c) || Ascii.eqb c " ") && only_space_ws (String d r)).
    now rewrite Hc, IH.
Qed.

Lemma only_space_take (n : nat) (s : string) :
  only_space_ws s = true -> only_space_ws (str_take n s) = true.
Proof.
  revert s. induction n as [|n IH]; intros [|c s] H; try reflexivity.
  simpl in *. apply andb_prop in H as [Hc H]. now rewrite Hc, IH.
Qed.

Lemma trim_start_starts (s : string) : starts_ws (trim_start s) = false.
Proof.
  induction s as [|c s IH]; [reflexivity|]. simpl.
  destruct (is_ws c) eqn:Ec; [exact IH | exact Ec].
Qed.

Lemma all_ws_collapse (s : string) :
  forall in_run, all_ws (collapse_from in_run s) = all_ws s.
Proof.
  induction s as [|c s IH]; intros in_run; [reflexivity|].
  simpl. destruct (is_ws c) eqn:Ec.
  - destruct in_run; [apply IH|]. simpl. apply IH.
  - simpl. now rewrite Ec.
Qed.

Lemma all_ws_trim_start (s : string) : all_ws (trim_start s) = all_ws s.
Proof.
  induction s as [|c s IH]; [reflexivity|]. simpl.
  destruct (is_ws c) eqn:Ec; [exact IH|]. simpl. now rewrite Ec.
Qed.

Lemma all_ws_trim_end (s : string) : all_ws (trim_end s) = all_ws s.
Proof.
  induction s as [|c s IH]; [reflexivity|]. simpl.
  destruct (trim_end s) as [|d r].
  - rewrite <- IH. simpl. destruct (is_ws c) eqn:Ec; simpl; now rewrite ?Ec.
  - rewrite <- IH. reflexivity.
Qed.

Lemma trim_start_all_ws (s : string) : all_ws s = true -> trim_start s = "".
Proof.
  induction s as [|c s IH]; [reflexivity|]. simpl. intros H.
  apply andb_prop in H as [Hc H]. rewrite Hc. auto.
Qed.

Lemma trim_empty_iff (s : string) : trim s = "" <-> all_ws s = true.
Proof.
  unfold trim. split; intros H.
  - rewrite <- all_ws_trim_start, <- all_ws_trim_end, H. reflexivity.
  - now rewrite (trim_start_all_ws s H).
Qed.

Lemma str_take_all (n : nat) (s : string) :
  (String.length s <= n)%nat -> str_take n s = s.
Proof.
  revert s. induction n as [|n IH]; intros [|c s] H; simpl in *;
    try reflexivity; try lia.
  rewrite IH; [reflexivity | lia].
Qed.

Lemma str_take_prefix (n : nat) (s : string) :
  exists rest, s = (str_take n s ++ rest)%string.
Proof.
  revert s. induction n as [|n IH]; intros s.
  - exists s. destruct s; reflexivity.
  - destruct s as [|c s]; [now exists ""|].
    destruct (IH s) as [rest Hr]. exists rest. simpl. now rewrite <- Hr.
Qed.

(** X14.  The snippet is in a normal form: it does not begin with
    whitespace, and the only whitespace character in it is the space, so
    tabs, line breaks and no-break spaces of the text never reach it. *)
Theorem snippet_normal_form (env : Env) (msg : FetchMsg) (parsed : Parsed) :
  starts_ws (snippet (normalize env msg parsed)) = false /\
  only_space_ws (snippet (normalize env msg parsed)) = true.
Proof.
  unfold normalize; cbn [snippet]. unfold str_slice0, trim, collapse_ws.
  set (s := or_else (p_text parsed) _). split.
  - destruct (starts_ws (str_take _ _)) eqn:E; [|reflexivity].
    apply str_take_starts, trim_end_starts in E.
    now rewrite trim_start_starts in E.
  - apply only_space_take, only_space_trim_end, only_space_trim_start,
      only_space_collapse.
Qed.

(** X15.  The snippet is empty exactly when the string it is made from,
    the parsed text or else the subject, consists of whitespace only; a
    text of blanks is not replaced by the subject. *)
Theorem snippet_empty_iff (env : Env) (msg : FetchMsg) (parsed : Parsed) :
  snippet (normalize env msg parsed) = "" <->
  all_ws (or_else (p_text parsed) (subject (normalize env msg parsed))) = true.
Proof.
  unfold normalize; cbn [snippet subject]. unfold str_slice0.
  set (subj := or_else (p_subject parsed) _).
  assert (Hs : or_str subj "" = subj) by (unfold or_str; destruct subj; reflexivity).
  rewrite Hs. set (s := or_else (p_text parsed) subj).
  rewrite <- (all_ws_collapse s false). fold (collapse_ws s).
  rewrite <- trim_empty_iff.
  change (Z.to_nat 240) with (S (Z.to_nat 239)).
  destruct (trim (collapse_ws s)); simpl; split; auto; discriminate.
Qed.

(** X16.  The bodies are cut, not rewritten: [bodyText] is an initial part
    of the parsed text and [bodyHtml] of the parsed HTML (of the empty
    string when the part is absent), and a part of at most 20000
    characters is returned whole. *)
Theorem bodies_are_prefixes (env : Env) (msg : FetchMsg) (parsed : Parsed) :
  let m := normalize env msg parsed in
  let text := or_else (p_text parsed) "" in
  let html := or_else (p_html parsed) "" in
  (exists rest, text = (bodyText m ++ rest)%string) /\
  (exists rest, html = (bodyHtml m ++ rest)%string) /\
  (Z.of_nat (String.length text) <= 20000 -> bodyText m = text) /\
  (Z.of_nat (String.length html) <= 20000 -> bodyHtml m = html).
Proof.
  intros m text html. unfold m, normalize; cbn [bodyText bodyHtml].
  fold text html. unfold str_slice0.
  split; [apply str_take_prefix|]. split; [apply str_take_prefix|].
  split; intros H; apply str_take_all; lia.
Qed.

Lemma or_else_nonempty (x : option string) (d : string) :
  d <> "" -> or_else x d <> "".
Proof.
  intros Hd. unfold or_else, falsy. destruct x as [[|c s]|]; simpl; auto.
  discriminate.
Qed.

(** X17.  Every normalised message has a non-empty subject: an absent or
    empty parsed subject falls back to the envelope's, and an absent or
    empty envelope subject to "(no subject)". *)
Theorem subject_never_empty (env : Env) (msg : FetchMsg) (parsed : Parsed) :
  subject (normalize env msg parsed) <> "" /\
  (falsy (p_subject parsed) = true -> falsy (envelope_subject msg) = true ->
   subject (normalize env msg parsed) = "(no subject)").
Proof.
  unfold normalize; cbn [subject]. split.
  - apply or_else_nonempty, or_else_nonempty. discriminate.
  - intros H1 H2. unfold or_else. now rewrite H1, H2.
Qed.

Lemma bodies_are_prefixes_witness :
  bodyText (normalize env5 (mkFetchMsg 4 None None None "four")
              (mkParsed None None (Some "four") None None None None RefAbsent))
  = "four".
Proof.
  apply (proj1 (proj2 (proj2
           (bodies_are_prefixes env5 (mkFetchMsg 4 None None None "four")
              (mkParsed None None (Some "four") None None None None RefAbsent))))).
  vm_compute. discriminate.
Defined.

Lemma subject_never_empty_witness :
  subject (normalize env5 (mkFetchMsg 4 None None None "four")
             (mkParsed (Some "") None (Some "four") None None None None RefAbsent))
  = "(no subject)".
Proof.
  apply (proj2 (subject_never_empty env5 (mkFetchMsg 4 None None None "four")
                  (mkParsed (Some "") None (Some "four") None None None None
                            RefAbsent)));
    reflexivity.
Defined.

(** ** Status codes *)

(** X18.  The status of a send, in full.  The handler always answers: 400
    exactly when a required field is missing (sender, password, recipient,
    subject, or both bodies), and then nothing is sent; otherwise 200
    exactly when the primary or the secondary host accepts the message, and
    500 when both refuse it. *)
Theorem send_status (env : Env) (b : SendBody) :
  let user := or_else (sb_fromEmail b) "" in
  let pass := or_else (sb_password b) "" in
  let o1 := smtp_session (sb_advanced b) user pass "mail.privateemail.com" in
  let o2 := smtp_session (sb_advanced b) user pass "smtp.privateemail.com" in
  exists tr r,
    send_handler env b = (tr, Ok r) /\
    (status r = 400 <-> send_missing b = true) /\
    (status r = 400 -> tr = []) /\
    (status r = 200 <->
     send_missing b = false /\
     (exists id, smtp_sendMail env o1 (mail_of b) = Ok id \/
                 smtp_sendMail env o2 (mail_of b) = Ok id)) /\
    (status r = 400 \/ status r = 200 \/ status r = 500).
Proof.
  intros user pass o1 o2. unfold send_handler. fold (send_missing b).
  destruct (send_missing b) eqn:Hm.
  - eexists; eexists. split; [reflexivity|]. simpl.
    repeat split; auto; try discriminate. intros [H _]. discriminate.
  - rewrite !trySend_eq. fold user pass o1 o2. unfold try_catch, ret. cbv zeta.
    destruct (smtp_sendMail env o1 (mail_of b)) as [id1|e1].
    + eexists; eexists. split; [reflexivity|]. simpl.
      repeat split; auto; try discriminate. exists id1. now left.
    + destruct (smtp_sendMail env o2 (mail_of b)) as [id2|e2].
      * eexists; eexists. split; [reflexivity|]. simpl.
        repeat split; auto; try discriminate. exists id2. now right.
      * eexists; eexists. split; [reflexivity|]. simpl.
        repeat split; auto; try discriminate.
        intros [_ [id [H|H]]]; discriminate.
Qed.

(** X19.  Neither [/test] nor [/sync] lets an exception escape.  A verify
    answers 400 exactly when e-mail or password is missing and 200
    otherwise; a sync answers 400 exactly when e-mail or password is
    missing, and otherwise 200 with a cursor and messages or 500 with an
    error text.  A 400 comes without any call to a collaborator. *)
Theorem test_and_sync_status (env : Env) (tb : TestBody) (yb : SyncBody) :
  (exists tr r,
     test_handler env tb = (tr, Ok r) /\
     (status r = 400 <-> falsy (tb_email tb) || falsy (tb_password tb) = true) /\
     (status r = 400 -> tr = []) /\
     (status r = 400 \/ status r = 200)) /\
  (exists tr r,
     sync_handler env yb = (tr, Ok r) /\
     (status r = 400 <-> falsy (yb_email yb) || falsy (yb_password yb) = true) /\
     (status r = 400 -> tr = []) /\
     ((status r = 400 /\ exists e, body r = BError e) \/
      (status r = 200 /\ exists cur msgs, body r = BSync cur msgs) \/
      (status r = 500 /\ exists e, body r = BError e))).
Proof.
  split.
  - unfold test_handler.
    destruct (falsy (tb_email tb) || falsy (tb_password tb)) eqn:Hv.
    + eexists; eexists. split; [reflexivity|]. simpl. repeat split; auto.
    + destruct (testImap_returns env (or_else (tb_email tb) "")
                  (or_else (tb_password tb) "") (tb_advanced tb))
        as [tri [ic [Hi _]]].
      rewrite Hi, !testSmtp_eq. cbv zeta. unfold bind, ret.
      destruct (smtp_verify env _) as [[]|e1]; simpl;
        [|destruct (smtp_verify env _) as [[]|e2]; simpl];
        eexists; eexists; (split; [reflexivity|]); simpl;
        repeat split; auto; discriminate.
  - destruct (falsy (yb_email yb) || falsy (yb_password yb)) eqn:Hv.
    + unfold sync_handler. rewrite Hv.
      eexists; eexists. split; [reflexivity|]. simpl.
      repeat split; auto. left. split; [reflexivity|]. eexists. reflexivity.
    + rewrite (sync_handler_run env yb Hv). cbv zeta.
      destruct (imap_connect env _) as [[]|ec].
      * destruct (imap_getMailboxLock env) as [[]|el].
        -- rewrite sync_locked_run. cbv zeta.
           destruct (imap_search env _) as [found|es]; cbn [fst snd].
           ++ destruct (snd (fetch_loop env _ _ _)) as [r|e].
              ** destruct (snd (imap_fetch env _)) as [e|];
                   eexists; eexists; (split; [reflexivity|]); simpl;
                   (split; [split; discriminate|]); (split; [discriminate|]).
                 --- right. right. split; [reflexivity|]. eexists. reflexivity.
                 --- right. left. split; [reflexivity|].
                     eexists; eexists. reflexivity.
              ** eexists; eexists. split; [reflexivity|]. simpl.
                 split; [split; discriminate|]. split; [discriminate|].
                 right. right. split; [reflexivity|]. eexists. reflexivity.
           ++ eexists; eexists. split; [reflexivity|]. simpl.
              split; [split; discriminate|]. split; [discriminate|].
              right. right. split; [reflexivity|]. eexists. reflexivity.
        -- eexists; eexists. split; [reflexivity|]. simpl.
           split; [split; discriminate|]. split; [discriminate|].
           right. right. split; [reflexivity|]. eexists. reflexivity.
      * eexists; eexists. split; [reflexivity|]. simpl.
        split; [split; discriminate|]. split; [discriminate|].
        right. right. split; [reflexivity|]. eexists. reflexivity.
Qed.

(** X20.  The cursor 0 is no cursor.  A first sync (no cursor) that
    fetched nothing returns the cursor 0, and a request that sends this
    cursor back runs, in any state of the mailbox, exactly as the request
    without a cursor: it searches the backfill window again, not the UIDs
    above 0. *)
Theorem sync_empty_first_sync_repeats (env : Env) (b : SyncBody) tr cur msgs :
  sync_handler env b = (tr, Ok (mkResponse 200 (BSync cur msgs))) ->
  yb_cursor b = None ->
  sync_batch env b = [] ->
  cur = 0 /\
  forall env',
    sync_handler env'
      (mkSyncBody (yb_email b) (yb_password b) (Some cur) (yb_backfillDays b)
                  (yb_limit b) (yb_advanced b))
    = sync_handler env' b.
Proof.
  intros H Hc Hb. destruct (sync_cursor_fold H) as [Hcur _].
  rewrite Hb in Hcur. simpl in Hcur. rewrite sync_start_cursor, Hc in Hcur.
  simpl in Hcur. subst cur. split; [reflexivity|].
  intros env'. destruct b as [e p c bf li adv]. simpl in *. subst c. reflexivity.
Qed.

Lemma sync_empty_first_sync_repeats_witness :
  sync_handler env5 (sync_req (Some 0) None) = sync_handler env5 (sync_req None None).
Proof.
  exact (proj2 (sync_empty_first_sync_repeats env_old (sync_req None None)
                  (fst (sync_handler env_old (sync_req None None))) 0 []
                  eq_refl eq_refl eq_refl) env5).
Defined.
